(** * VInferenceEscrow: a shallow embedding of [backend/contracts/Escrow.sol]

    The contract is a ledger of escrow records keyed by job identifier.  The
    embedding follows the Solidity source function by function:

    - [uint256], [address] and [bytes32] values are binary naturals ([N]);
      the checked arithmetic of Solidity 0.8 ([+=], [-=], [+]) is written out
      and reverts with [Panic 17] when the result leaves the 256-bit range;
    - a Solidity [mapping] is a total function whose default is the zero
      value, exactly as storage behaves;
    - a function body is a computation in a state-and-revert monad; a revert
      discards every write of the call, which is what [transact] implements;
    - the low-level call to the verifier in [releaseWithProof] hands control
      to the verifier before the record is marked: the execution context
      [Ctx] gives the answer of that call together with the calls the
      verifier makes into the ledger while it runs, and these nested calls
      are executed on the ledger's state at that point ([reenter]);
    - the value transfer to a payee is the last interaction of the function
      that makes it: every storage write of the function precedes it and
      only the [emit] follows, so it is answered by [Ctx] with the payee's
      acceptance, and what the payee does with the control it receives are
      calls of their own. *)

From Stdlib Require Import NArith List String Bool Lia.
From Stdlib Require Import Strings.Byte.
Import ListNotations.

Local Open Scope string_scope.
Local Open Scope N_scope.

(** ** Value types *)

Definition address := N.
Definition uint256 := N.
Definition bytes32 := N.
Definition bytes := list byte.

Definition MAX_UINT256 : N := 2 ^ 256 - 1.

(** [24 hours] in seconds. *)
Definition HOURS_24 : N := 24 * 3600.

Arguments MAX_UINT256 : simpl never.
Arguments HOURS_24 : simpl never.

(** ** Storage *)

Record EscrowRecord := mkEscrow {
  buyer : address;
  provider : address;
  amount : uint256;
  createdAt : uint256;
  isReleased : bool;
  isRefunded : bool;
  proofHash : bytes32
}.

Inductive Event :=
| EscrowCreated (jobId : bytes32) (buyer provider : address) (amount : uint256)
| EscrowReleased (jobId : bytes32) (provider : address) (amount : uint256)
                 (proofHash : bytes32)
| EscrowRefunded (jobId : bytes32) (buyer : address) (amount : uint256)
                 (reason : string)
| VerifierUpdated (oldVerifier newVerifier : address).

(** [balance] is [address(this).balance]; [log] collects the emitted events,
    most recent first. *)
Record State := mkState {
  owner : address;
  verifierContract : address;
  escrows : bytes32 -> EscrowRecord;
  lockedBalance : address -> uint256;
  providerEarnings : address -> uint256;
  balance : uint256;
  log : list Event
}.

Definition zero_record : EscrowRecord := mkEscrow 0 0 0 0 false false 0.

Definition upd {V : Type} (m : N -> V) (k : N) (v : V) : N -> V :=
  fun k' => if k' =? k then v else m k'.

Definition set_isReleased (b : bool) (r : EscrowRecord) : EscrowRecord :=
  mkEscrow (buyer r) (provider r) (amount r) (createdAt r) b (isRefunded r)
           (proofHash r).

Definition set_isRefunded (b : bool) (r : EscrowRecord) : EscrowRecord :=
  mkEscrow (buyer r) (provider r) (amount r) (createdAt r) (isReleased r) b
           (proofHash r).

Definition set_proofHash (h : bytes32) (r : EscrowRecord) : EscrowRecord :=
  mkEscrow (buyer r) (provider r) (amount r) (createdAt r) (isReleased r)
           (isRefunded r) h.

Definition set_owner (a : address) (s : State) : State :=
  mkState a (verifierContract s) (escrows s) (lockedBalance s)
          (providerEarnings s) (balance s) (log s).

Definition set_verifierContract (a : address) (s : State) : State :=
  mkState (owner s) a (escrows s) (lockedBalance s) (providerEarnings s)
          (balance s) (log s).

Definition set_escrow (jobId : bytes32) (r : EscrowRecord) (s : State) : State :=
  mkState (owner s) (verifierContract s) (upd (escrows s) jobId r)
          (lockedBalance s) (providerEarnings s) (balance s) (log s).

Definition set_lockedBalance (a : address) (v : uint256) (s : State) : State :=
  mkState (owner s) (verifierContract s) (escrows s)
          (upd (lockedBalance s) a v) (providerEarnings s) (balance s) (log s).

Definition set_providerEarnings (a : address) (v : uint256) (s : State) : State :=
  mkState (owner s) (verifierContract s) (escrows s) (lockedBalance s)
          (upd (providerEarnings s) a v) (balance s) (log s).

Definition set_balance (v : uint256) (s : State) : State :=
  mkState (owner s) (verifierContract s) (escrows s) (lockedBalance s)
          (providerEarnings s) v (log s).

Definition add_log (e : Event) (s : State) : State :=
  mkState (owner s) (verifierContract s) (escrows s) (lockedBalance s)
          (providerEarnings s) (balance s) (e :: log s).

(** ** Reverts and the contract monad *)

(** [Error reason] is what a failed [require(cond, reason)] reverts with;
    [Panic code] is what the compiler-inserted arithmetic check reverts with
    (code 17, that is 0x11). *)
Inductive Failure :=
| Error (reason : string)
| Panic (code : N).

Inductive Result (A : Type) :=
| Ok (a : A) (s : State)
| Revert (f : Failure).

Arguments Ok {A} a s.
Arguments Revert {A} f.

Definition Contract (A : Type) : Type := State -> Result A.

Definition ret {A : Type} (a : A) : Contract A := fun s => Ok a s.

Definition bind {A B : Type} (m : Contract A) (k : A -> Contract B) : Contract B :=
  fun s => match m s with
           | Ok a s' => k a s'
           | Revert f => Revert f
           end.

Notation "x <- m ;; k" := (bind m (fun x => k))
  (at level 61, m at next level, right associativity).
Notation "m ;; k" := (bind m (fun _ => k))
  (at level 61, right associativity).

Definition read {A : Type} (f : State -> A) : Contract A := fun s => Ok (f s) s.

Definition write (f : State -> State) : Contract unit := fun s => Ok tt (f s).

Definition revert {A : Type} (f : Failure) : Contract A := fun _ => Revert f.

Definition require (cond : bool) (reason : string) : Contract unit :=
  if cond then ret tt else revert (Error reason).

Definition add256 (a b : uint256) : Contract uint256 :=
  if a + b <=? MAX_UINT256 then ret (a + b) else revert (Panic 17).

Definition sub256 (a b : uint256) : Contract uint256 :=
  if b <=? a then ret (a - b) else revert (Panic 17).

Definition emit (e : Event) : Contract unit := write (add_log e).

(** [escrow.f] read through the storage pointer [escrows[jobId]]. *)
Definition field {A : Type} (jobId : bytes32) (f : EscrowRecord -> A) : Contract A :=
  read (fun s => f (escrows s jobId)).

(** [escrow.f = v] written through the storage pointer. *)
Definition assign (jobId : bytes32) (f : EscrowRecord -> EscrowRecord) : Contract unit :=
  write (fun s => set_escrow jobId (f (escrows s jobId)) s).

(** [lockedBalance[who] += v], [lockedBalance[who] -= v] and
    [providerEarnings[who] += v]. *)
Definition lockedBalance_add (who : address) (v : uint256) : Contract unit :=
  old <- read (fun s => lockedBalance s who) ;;
  new <- add256 old v ;;
  write (set_lockedBalance who new).

Definition lockedBalance_sub (who : address) (v : uint256) : Contract unit :=
  old <- read (fun s => lockedBalance s who) ;;
  new <- sub256 old v ;;
  write (set_lockedBalance who new).

Definition providerEarnings_add (who : address) (v : uint256) : Contract unit :=
  old <- read (fun s => providerEarnings s who) ;;
  new <- add256 old v ;;
  write (set_providerEarnings who new).

(** ** Calls and execution context *)

(** The external entry points.  Only [createEscrow] and [receive()] are
    payable, so only they carry a value. *)
Inductive Call :=
| CreateEscrow (msg_value : uint256) (jobId : bytes32) (provider : address)
| ReleaseEscrow (jobId proofHash : bytes32)
| ReleaseWithProof (jobId : bytes32) (proof : bytes) (publicInputs : list uint256)
| RefundEscrow (jobId : bytes32) (reason : string)
| SetVerifier (_verifier : address)
| TransferOwnership (newOwner : address)
| EmergencyWithdraw
| Receive (msg_value : uint256).

(** What a call sees of the chain.  [call_verify a proof inputs] is the pair
    [(success, returndata)] of the low-level call
    [a.call(abi.encodeWithSignature("verify(bytes,uint256[])", proof, inputs))],
    and [verifier_calls a proof inputs] lists the calls into the ledger that
    the code at [a] (or code it hands control to) makes during that call,
    each with the context it runs in; [accepts_payment a v] tells whether
    the code at [a] accepts a plain transfer of [v] wei (an account without
    code always does). *)
#[local] Unset Elimination Schemes.
Inductive Ctx : Type := mkCtx {
  msg_sender : address;
  block_timestamp : uint256;
  call_verify : address -> bytes -> list uint256 -> bool * bytes;
  verifier_calls : address -> bytes -> list uint256 -> list (Ctx * Call);
  accepts_payment : address -> uint256 -> bool
}.
#[local] Set Elimination Schemes.

Definition with_sender (a : address) (c : Ctx) : Ctx :=
  mkCtx a (block_timestamp c) (call_verify c) (verifier_calls c)
        (accepts_payment c).

Definition with_timestamp (t : uint256) (c : Ctx) : Ctx :=
  mkCtx (msg_sender c) t (call_verify c) (verifier_calls c)
        (accepts_payment c).

(** The ABI encoding of a [bool] return value: one 32-byte word. *)
Definition abi_encode_bool (b : bool) : bytes :=
  (repeat x00 31%nat ++ [if b then x01 else x00])%list.

(** The call stack of the EVM holds 1024 frames.  A call into the ledger
    sent from outside is the first; each re-entry adds the frame of the
    verifier and the frame of its call into the ledger, so 511 re-entries
    fit, and a call beyond the limit fails and leaves the state. *)
Definition REENTRY_DEPTH : nat := 511%nat.

Section Ledger.

(** [keccak256] is the hash built into the EVM; [this] is [address(this)]. *)
Variable keccak256 : bytes -> bytes32.
Variable this : address.

(** [payable(to).call{value: v}("")]: the call fails when the ledger holds
    less than [v]; a payment to the ledger itself runs its empty [receive()],
    which leaves the balance as it was; otherwise the payee decides. *)
Definition call_value (c : Ctx) (to : address) (v : uint256) : Contract bool :=
  fun s =>
    if balance s <? v then Ok false s
    else if to =? this then Ok true s
    else if accepts_payment c to v then Ok true (set_balance (balance s - v) s)
    else Ok false s.

(** The payout of [v] wei to [to] goes through. *)
Definition deliverable (c : Ctx) (to : address) (v : uint256) (s : State) : Prop :=
  v <= balance s /\ (to = this \/ accepts_payment c to v = true).

(** *** Modifiers *)

Definition onlyOwner (c : Ctx) : Contract unit :=
  o <- read owner ;;
  require (msg_sender c =? o) "Only owner".

Definition escrowExists (jobId : bytes32) : Contract unit :=
  a <- field jobId amount ;;
  require (0 <? a) "Escrow does not exist".

Definition escrowNotSettled (jobId : bytes32) : Contract unit :=
  released <- field jobId isReleased ;;
  require (negb released) "Already released" ;;
  refunded <- field jobId isRefunded ;;
  require (negb refunded) "Already refunded".

(** *** Constructor *)

Definition constructor (deployer : address) : State :=
  mkState deployer 0 (fun _ => zero_record) (fun _ => 0) (fun _ => 0) 0 [].

(** *** Main functions *)

Definition createEscrow (c : Ctx) (msg_value : uint256)
    (jobId : bytes32) (provider : address) : Contract unit :=
  require (0 <? msg_value) "Must send ETH" ;;
  require (negb (provider =? 0)) "Invalid provider" ;;
  require (negb (provider =? msg_sender c)) "Cannot escrow to self" ;;
  existing <- field jobId amount ;;
  require (existing =? 0) "Escrow already exists" ;;
  write (set_escrow jobId
           (mkEscrow (msg_sender c) provider msg_value (block_timestamp c)
                     false false 0)) ;;
  lockedBalance_add (msg_sender c) msg_value ;;
  emit (EscrowCreated jobId (msg_sender c) provider msg_value).

Definition releaseEscrow (c : Ctx) (jobId proofHash : bytes32) : Contract unit :=
  escrowExists jobId ;;
  escrowNotSettled jobId ;;
  (* Only buyer or owner can release *)
  b <- field jobId buyer ;;
  o <- read owner ;;
  require ((msg_sender c =? b) || (msg_sender c =? o)) "Not authorized" ;;
  (* Mark as released *)
  assign jobId (set_isReleased true) ;;
  assign jobId (set_proofHash proofHash) ;;
  (* Update balances *)
  b <- field jobId buyer ;;
  a <- field jobId amount ;;
  lockedBalance_sub b a ;;
  p <- field jobId provider ;;
  a <- field jobId amount ;;
  providerEarnings_add p a ;;
  (* Transfer to provider *)
  p <- field jobId provider ;;
  a <- field jobId amount ;;
  success <- call_value c p a ;;
  require success "Transfer failed" ;;
  p <- field jobId provider ;;
  a <- field jobId amount ;;
  emit (EscrowReleased jobId p a proofHash).

(** [verifierContract.call(abi.encodeWithSignature("verify(bytes,uint256[])",
    proof, publicInputs))].  The verifier runs, and [reenter] executes the
    calls it makes into the ledger on the state the ledger is in; when the
    call fails, its frame is reverted, those calls included.  Only the
    success flag is kept by the caller. *)
Definition call_verifier (reenter : list (Ctx * Call) -> State -> State)
    (c : Ctx) (v : address) (proof : bytes) (publicInputs : list uint256)
    : Contract bool :=
  fun s =>
    if fst (call_verify c v proof publicInputs)
    then Ok true (reenter (verifier_calls c v proof publicInputs) s)
    else Ok false s.

Definition releaseWithProof (reenter : list (Ctx * Call) -> State -> State)
    (c : Ctx) (jobId : bytes32) (proof : bytes)
    (publicInputs : list uint256) : Contract unit :=
  escrowExists jobId ;;
  escrowNotSettled jobId ;;
  v <- read verifierContract ;;
  require (negb (v =? 0)) "Verifier not set" ;;
  (* Call the verifier contract *)
  v <- read verifierContract ;;
  verified <- call_verifier reenter c v proof publicInputs ;;
  require verified "Proof verification failed" ;;
  (* Mark as released *)
  assign jobId (set_isReleased true) ;;
  assign jobId (set_proofHash (keccak256 proof)) ;;
  (* Update balances *)
  b <- field jobId buyer ;;
  a <- field jobId amount ;;
  lockedBalance_sub b a ;;
  p <- field jobId provider ;;
  a <- field jobId amount ;;
  providerEarnings_add p a ;;
  (* Transfer to provider *)
  p <- field jobId provider ;;
  a <- field jobId amount ;;
  success <- call_value c p a ;;
  require success "Transfer failed" ;;
  p <- field jobId provider ;;
  a <- field jobId amount ;;
  h <- field jobId proofHash ;;
  emit (EscrowReleased jobId p a h).

Definition refundEscrow (c : Ctx) (jobId : bytes32) (reason : string) : Contract unit :=
  escrowExists jobId ;;
  escrowNotSettled jobId ;;
  (* Only buyer or owner can refund *)
  b <- field jobId buyer ;;
  o <- read owner ;;
  require ((msg_sender c =? b) || (msg_sender c =? o)) "Not authorized" ;;
  (* Auto-refund after 24 hours if proof not submitted *)
  b <- field jobId buyer ;;
  (if msg_sender c =? b then
     t <- field jobId createdAt ;;
     deadline <- add256 t HOURS_24 ;;
     o <- read owner ;;
     require ((deadline <? block_timestamp c) || (msg_sender c =? o))
             "Cannot refund yet"
   else ret tt) ;;
  (* Mark as refunded *)
  assign jobId (set_isRefunded true) ;;
  (* Update balance *)
  b <- field jobId buyer ;;
  a <- field jobId amount ;;
  lockedBalance_sub b a ;;
  (* Transfer back to buyer *)
  b <- field jobId buyer ;;
  a <- field jobId amount ;;
  success <- call_value c b a ;;
  require success "Transfer failed" ;;
  b <- field jobId buyer ;;
  a <- field jobId amount ;;
  emit (EscrowRefunded jobId b a reason).

(** The part of [releaseEscrow] that runs before the transfer to the
    provider is attempted (modifiers, authorization, the writes of lines
    136-142), and the same for [refundEscrow] (up to line 222). *)
Definition releaseEscrow_until_transfer (c : Ctx) (jobId proofHash : bytes32)
    : Contract unit :=
  escrowExists jobId ;;
  escrowNotSettled jobId ;;
  b <- field jobId buyer ;;
  o <- read owner ;;
  require ((msg_sender c =? b) || (msg_sender c =? o)) "Not authorized" ;;
  assign jobId (set_isReleased true) ;;
  assign jobId (set_proofHash proofHash) ;;
  b <- field jobId buyer ;;
  a <- field jobId amount ;;
  lockedBalance_sub b a ;;
  p <- field jobId provider ;;
  a <- field jobId amount ;;
  providerEarnings_add p a.

Definition releaseEscrow_transfer (c : Ctx) (jobId proofHash : bytes32)
    : Contract unit :=
  p <- field jobId provider ;;
  a <- field jobId amount ;;
  success <- call_value c p a ;;
  require success "Transfer failed" ;;
  p <- field jobId provider ;;
  a <- field jobId amount ;;
  emit (EscrowReleased jobId p a proofHash).

Definition refundEscrow_until_transfer (c : Ctx) (jobId : bytes32)
    : Contract unit :=
  escrowExists jobId ;;
  escrowNotSettled jobId ;;
  b <- field jobId buyer ;;
  o <- read owner ;;
  require ((msg_sender c =? b) || (msg_sender c =? o)) "Not authorized" ;;
  b <- field jobId buyer ;;
  (if msg_sender c =? b then
     t <- field jobId createdAt ;;
     deadline <- add256 t HOURS_24 ;;
     o <- read owner ;;
     require ((deadline <? block_timestamp c) || (msg_sender c =? o))
             "Cannot refund yet"
   else ret tt) ;;
  assign jobId (set_isRefunded true) ;;
  b <- field jobId buyer ;;
  a <- field jobId amount ;;
  lockedBalance_sub b a.

Definition refundEscrow_transfer (c : Ctx) (jobId : bytes32) (reason : string)
    : Contract unit :=
  b <- field jobId buyer ;;
  a <- field jobId amount ;;
  success <- call_value c b a ;;
  require success "Transfer failed" ;;
  b <- field jobId buyer ;;
  a <- field jobId amount ;;
  emit (EscrowRefunded jobId b a reason).

(** The part of [releaseWithProof] that runs once the verifier has answered
    and [require(verified, ...)] has passed (lines 173-187). *)
Definition releaseWithProof_after_verifier (c : Ctx) (jobId : bytes32)
    (proof : bytes) : Contract unit :=
  assign jobId (set_isReleased true) ;;
  assign jobId (set_proofHash (keccak256 proof)) ;;
  b <- field jobId buyer ;;
  a <- field jobId amount ;;
  lockedBalance_sub b a ;;
  p <- field jobId provider ;;
  a <- field jobId amount ;;
  providerEarnings_add p a ;;
  p <- field jobId provider ;;
  a <- field jobId amount ;;
  success <- call_value c p a ;;
  require success "Transfer failed" ;;
  p <- field jobId provider ;;
  a <- field jobId amount ;;
  h <- field jobId proofHash ;;
  emit (EscrowReleased jobId p a h).

(** *** View functions *)

Definition getEscrow (s : State) (jobId : bytes32) : EscrowRecord :=
  escrows s jobId.

Definition isPending (s : State) (jobId : bytes32) : bool :=
  let e := escrows s jobId in
  (0 <? amount e) && negb (isReleased e) && negb (isRefunded e).

(** *** Admin functions *)

Definition setVerifier (c : Ctx) (_verifier : address) : Contract unit :=
  onlyOwner c ;;
  old <- read verifierContract ;;
  write (set_verifierContract _verifier) ;;
  emit (VerifierUpdated old _verifier).

Definition transferOwnership (c : Ctx) (newOwner : address) : Contract unit :=
  onlyOwner c ;;
  require (negb (newOwner =? 0)) "Invalid address" ;;
  write (set_owner newOwner).

Definition emergencyWithdraw (c : Ctx) : Contract unit :=
  onlyOwner c ;;
  o <- read owner ;;
  total <- read balance ;;
  success <- call_value c o total ;;
  require success "Transfer failed".

(** *** Transactions *)

Inductive Receipt :=
| Success
| Failed (f : Failure).

(** The value a call carries. *)
Definition call_msg_value (f : Call) : uint256 :=
  match f with
  | CreateEscrow v _ _ | Receive v => v
  | _ => 0
  end.

(** The balance of an account is a 256-bit word and the wei in existence
    fit in it: the chain carries a call only when the ledger can hold the
    value sent with it. *)
Definition sendable (f : Call) (s : State) : bool :=
  call_msg_value f <=? MAX_UINT256 - balance s.

(** The value sent with a call is credited before the body runs.  In a
    sequence of calls only [sendable] ones are run ([step_with]), so the
    sum stays a 256-bit word. *)
Definition credit (v : uint256) (s : State) : State :=
  set_balance (balance s + v) s.

Definition body (reenter : list (Ctx * Call) -> State -> State)
    (c : Ctx) (f : Call) : Contract unit :=
  match f with
  | CreateEscrow v jobId provider =>
      write (credit v) ;; createEscrow c v jobId provider
  | ReleaseEscrow jobId proofHash => releaseEscrow c jobId proofHash
  | ReleaseWithProof jobId proof publicInputs =>
      releaseWithProof reenter c jobId proof publicInputs
  | RefundEscrow jobId reason => refundEscrow c jobId reason
  | SetVerifier v => setVerifier c v
  | TransferOwnership o => transferOwnership c o
  | EmergencyWithdraw => emergencyWithdraw c
  | Receive v => write (credit v)
  end.

(** A call either commits the state its body reached or, on a revert, leaves
    the state it started from. *)
Definition transact_with (reenter : list (Ctx * Call) -> State -> State)
    (c : Ctx) (f : Call) (s : State) : State * Receipt :=
  match body reenter c f s with
  | Ok _ s' => (s', Success)
  | Revert e => (s, Failed e)
  end.

(** One call of a sequence, failed ones included: a call that the chain
    cannot carry does not take place. *)
Definition step_with (reenter : list (Ctx * Call) -> State -> State)
    (s : State) (tx : Ctx * Call) : State :=
  if sendable (snd tx) s
  then fst (transact_with reenter (fst tx) (snd tx) s)
  else s.

(** The calls made into the ledger from inside a call to the verifier, with
    [depth] re-entries still possible below them. *)
Fixpoint reenter (depth : nat) (calls : list (Ctx * Call)) (s : State) : State :=
  match depth with
  | O => s
  | S d => fold_left (step_with (reenter d)) calls s
  end.

(** A call into the ledger sent from outside. *)
Definition transact (c : Ctx) (f : Call) (s : State) : State * Receipt :=
  transact_with (reenter REENTRY_DEPTH) c f s.

Definition step (s : State) (tx : Ctx * Call) : State :=
  step_with (reenter REENTRY_DEPTH) s tx.

(** The state after a sequence of calls sent from outside. *)
Definition run (txs : list (Ctx * Call)) (s : State) : State :=
  fold_left step txs s.

(** The state in which [releaseWithProof] resumes after a successful call
    to the verifier: the state the verifier's own calls have left. *)
Definition after_verifier (c : Ctx) (proof : bytes)
    (publicInputs : list uint256) (s : State) : State :=
  reenter REENTRY_DEPTH
    (verifier_calls c (verifierContract s) proof publicInputs) s.

End Ledger.

Arguments REENTRY_DEPTH : simpl never.
Arguments reenter : simpl never.

(** ** The error names of the specification *)

Inductive LedgerError :=
| InvalidAmount
| InvalidProvider
| DuplicateJob
| NotFound
| AlreadySettled
| Unauthorized
| TooEarly
| TransferFailed
| VerifierNotConfigured
| VerificationFailed.

(** Which specification error a revert of the contract stands for. *)
Definition classify (f : Failure) : option LedgerError :=
  match f with
  | Error r =>
      if (r =? "Must send ETH")%string then Some InvalidAmount
      else if (r =? "Invalid provider")%string then Some InvalidProvider
      else if (r =? "Cannot escrow to self")%string then Some InvalidProvider
      else if (r =? "Escrow already exists")%string then Some DuplicateJob
      else if (r =? "Escrow does not exist")%string then Some NotFound
      else if (r =? "Already released")%string then Some AlreadySettled
      else if (r =? "Already refunded")%string then Some AlreadySettled
      else if (r =? "Not authorized")%string then Some Unauthorized
      else if (r =? "Only owner")%string then Some Unauthorized
      else if (r =? "Cannot refund yet")%string then Some TooEarly
      else if (r =? "Transfer failed")%string then Some TransferFailed
      else if (r =? "Verifier not set")%string then Some VerifierNotConfigured
      else if (r =? "Proof verification failed")%string then Some VerificationFailed
      else None
  | Panic _ => None
  end.

(** The call was rejected with the given specification error and changed
    nothing. *)
Definition rejected (e : LedgerError) (s : State) (out : State * Receipt) : Prop :=
  exists f, out = (s, Failed f) /\ classify f = Some e.

(** ** Predicates on records and states *)

Definition settled (r : EscrowRecord) : bool := isReleased r || isRefunded r.

(** The sum of [f] over the jobs in [l]. *)
Definition sum_over (f : bytes32 -> uint256) (l : list bytes32) : uint256 :=
  fold_right (fun j acc => f j + acc) 0 l.

(** The verifier reached through [c] makes no call into the ledger. *)
Definition quiet (c : Ctx) : Prop :=
  forall v proof inputs, verifier_calls c v proof inputs = [].

(** ** Bookkeeping read off the event log *)

(** The job identifiers for which [EscrowCreated] was emitted, most recent
    first. *)
Definition created_jobs (s : State) : list bytes32 :=
  flat_map (fun e => match e with
                     | EscrowCreated j _ _ _ => [j]
                     | _ => []
                     end) (log s).

(** What job [j] contributes to the locked balance of [b], to the earnings
    of [p], and to the funds the ledger must hold. *)
Definition locked_share (s : State) (b : address) (j : bytes32) : uint256 :=
  if isPending s j && (buyer (escrows s j) =? b)
  then amount (escrows s j) else 0.

Definition earned_share (s : State) (p : address) (j : bytes32) : uint256 :=
  if isReleased (escrows s j) && (provider (escrows s j) =? p)
  then amount (escrows s j) else 0.

Definition owed (s : State) (j : bytes32) : uint256 :=
  if isPending s j then amount (escrows s j) else 0.

(** The event a call may leave in the log without touching a record. *)
Definition grows_by_admin_event (s s' : State) : Prop :=
  log s' = log s
  \/ exists old new, log s' = VerifierUpdated old new :: log s.

(** What one call does to records, totals, balance and log: it leaves
    them (an administrative call, a plain payment or a failed call), it
    creates a record, it releases one or it refunds one. *)
Inductive effect (f : Call) (s s' : State) : Prop :=
| eff_none :
    (forall j, escrows s' j = escrows s j) ->
    (forall a, lockedBalance s' a = lockedBalance s a) ->
    (forall a, providerEarnings s' a = providerEarnings s a) ->
    grows_by_admin_event s s' ->
    (f = EmergencyWithdraw \/ balance s <= balance s') ->
    effect f s s'
| eff_created (j0 : bytes32) (r : EscrowRecord) :
    amount (escrows s j0) = 0 ->
    0 < amount r -> isReleased r = false -> isRefunded r = false ->
    proofHash r = 0 -> provider r <> 0 -> provider r <> buyer r ->
    (forall j, escrows s' j = if j =? j0 then r else escrows s j) ->
    (forall a, lockedBalance s' a =
               if a =? buyer r then lockedBalance s a + amount r
               else lockedBalance s a) ->
    (forall a, providerEarnings s' a = providerEarnings s a) ->
    log s' = EscrowCreated j0 (buyer r) (provider r) (amount r) :: log s ->
    balance s' = balance s + amount r ->
    effect f s s'
| eff_released (j0 h : bytes32) :
    isPending s j0 = true ->
    (forall j, escrows s' j =
               if j =? j0
               then mkEscrow (buyer (escrows s j0)) (provider (escrows s j0))
                             (amount (escrows s j0)) (createdAt (escrows s j0))
                             true false h
               else escrows s j) ->
    amount (escrows s j0) <= lockedBalance s (buyer (escrows s j0)) ->
    (forall a, lockedBalance s' a =
               if a =? buyer (escrows s j0)
               then lockedBalance s a - amount (escrows s j0)
               else lockedBalance s a) ->
    (forall a, providerEarnings s' a =
               if a =? provider (escrows s j0)
               then providerEarnings s a + amount (escrows s j0)
               else providerEarnings s a) ->
    log s' = EscrowReleased j0 (provider (escrows s j0))
               (amount (escrows s j0)) h :: log s ->
    amount (escrows s j0) <= balance s ->
    balance s - amount (escrows s j0) <= balance s' ->
    effect f s s'
| eff_refunded (j0 : bytes32) (reason : string) :
    isPending s j0 = true ->
    (forall j, escrows s' j =
               if j =? j0
               then mkEscrow (buyer (escrows s j0)) (provider (escrows s j0))
                             (amount (escrows s j0)) (createdAt (escrows s j0))
                             false true (proofHash (escrows s j0))
               else escrows s j) ->
    amount (escrows s j0) <= lockedBalance s (buyer (escrows s j0)) ->
    (forall a, lockedBalance s' a =
               if a =? buyer (escrows s j0)
               then lockedBalance s a - amount (escrows s j0)
               else lockedBalance s a) ->
    (forall a, providerEarnings s' a = providerEarnings s a) ->
    log s' = EscrowRefunded j0 (buyer (escrows s j0))
               (amount (escrows s j0)) reason :: log s ->
    amount (escrows s j0) <= balance s ->
    balance s - amount (escrows s j0) <= balance s' ->
    effect f s s'.

(** What the writes of [releaseWithProof] (lines 176-187) do to the state
    [s] that the verifier has left: whatever has happened to the record of
    [j0] in the meantime, it is marked released and the totals are moved
    once more. *)
Record late_release (j0 h : bytes32) (s s' : State) : Prop := mkLate {
  lr_exists : 0 < amount (escrows s j0);
  lr_records : forall j, escrows s' j =
      if j =? j0
      then mkEscrow (buyer (escrows s j0)) (provider (escrows s j0))
                    (amount (escrows s j0)) (createdAt (escrows s j0))
                    true (isRefunded (escrows s j0)) h
      else escrows s j;
  lr_covered : amount (escrows s j0) <= lockedBalance s (buyer (escrows s j0));
  lr_locked : forall a, lockedBalance s' a =
      if a =? buyer (escrows s j0)
      then lockedBalance s a - amount (escrows s j0)
      else lockedBalance s a;
  lr_earnings : forall a, providerEarnings s' a =
      if a =? provider (escrows s j0)
      then providerEarnings s a + amount (escrows s j0)
      else providerEarnings s a;
  lr_log : log s' = EscrowReleased j0 (provider (escrows s j0))
                      (amount (escrows s j0)) h :: log s;
  lr_funds : amount (escrows s j0) <= balance s;
  lr_balance : balance s - amount (escrows s j0) <= balance s'
}.

(** The terms of the record of [j] in [s] are those it has in [s']. *)
Definition same_terms (s s' : State) (j : bytes32) : Prop :=
  buyer (escrows s' j) = buyer (escrows s j)
  /\ provider (escrows s' j) = provider (escrows s j)
  /\ amount (escrows s' j) = amount (escrows s j)
  /\ createdAt (escrows s' j) = createdAt (escrows s j).

(** Every record that exists in [s] has the same terms in [s']. *)
Definition terms_kept (s s' : State) : Prop :=
  forall j, 0 < amount (escrows s j) -> same_terms s s' j.

(** What holds of every record of a reachable state: a job that was never
    created reads as the zero record, an existing record names a provider
    that is neither the zero address nor its buyer, and a proof hash is
    present only on a released record. *)
Definition well_formed (r : EscrowRecord) : Prop :=
  (amount r = 0 -> r = zero_record)
  /\ (0 < amount r -> provider r <> 0 /\ provider r <> buyer r)
  /\ (isReleased r = false -> proofHash r = 0).

(** The jobs for which [EscrowCreated] was emitted are listed once each and
    are the jobs with a nonzero amount. *)
Definition jobs_listed (s : State) : Prop :=
  NoDup (created_jobs s)
  /\ (forall j, In j (created_jobs s) <-> 0 < amount (escrows s j)).

(** The totals kept per address agree with the records: the created jobs
    are listed once each, they are the jobs with a nonzero amount, each
    locked balance is the sum of the buyer's pending amounts and each
    earnings total is the sum of the amounts released to the provider. *)
Definition books_balanced (s : State) : Prop :=
  NoDup (created_jobs s)
  /\ (forall j, In j (created_jobs s) <-> 0 < amount (escrows s j))
  /\ (forall b, lockedBalance s b = sum_over (locked_share s b) (created_jobs s))
  /\ (forall p, providerEarnings s p =
                sum_over (earned_share s p) (created_jobs s)).

(** Every record is backed by the events that produced it. *)
Definition logged (s : State) : Prop :=
  forall j,
    (0 < amount (escrows s j) ->
     In (EscrowCreated j (buyer (escrows s j)) (provider (escrows s j))
           (amount (escrows s j))) (log s))
    /\ (isReleased (escrows s j) = true ->
        In (EscrowReleased j (provider (escrows s j)) (amount (escrows s j))
              (proofHash (escrows s j))) (log s))
    /\ (isRefunded (escrows s j) = true ->
        exists reason,
          In (EscrowRefunded j (buyer (escrows s j)) (amount (escrows s j))
                reason) (log s)).

(** The ledger holds at least what the pending records promise. *)
Definition solvent (s : State) : Prop :=
  sum_over (owed s) (created_jobs s) <= balance s.

Definition is_sweep (f : Call) : bool :=
  match f with
  | EmergencyWithdraw => true
  | _ => false
  end.

(** The entry points that work on escrow records, as opposed to the
    administrative ones and [receive()]. *)
Definition is_escrow_call (f : Call) : bool :=
  match f with
  | CreateEscrow _ _ _ | ReleaseEscrow _ _
  | ReleaseWithProof _ _ _ | RefundEscrow _ _ => true
  | _ => false
  end.

(** The entry points guarded by [onlyOwner]. *)
Definition is_owner_call (f : Call) : bool :=
  match f with
  | SetVerifier _ | TransferOwnership _ | EmergencyWithdraw => true
  | _ => false
  end.

(** The job identifiers for which a settlement event, [EscrowReleased] or
    [EscrowRefunded], was emitted, most recent first. *)
Definition settled_jobs (s : State) : list bytes32 :=
  flat_map (fun e => match e with
                     | EscrowReleased j _ _ _ => [j]
                     | EscrowRefunded j _ _ _ => [j]
                     | _ => []
                     end) (log s).

(** Each job was settled by at most one event, and the jobs with a
    settlement event are the settled records. *)
Definition settled_once (s : State) : Prop :=
  NoDup (settled_jobs s)
  /\ forall j, In j (settled_jobs s) <-> settled (escrows s j) = true.

(** ** Data of the worked scenarios *)

(** A stand-in for [keccak256] in the scenarios; nothing proved here depends
    on which function it is. *)
Definition sample_keccak256 (b : bytes) : bytes32 :=
  fold_left (fun h x => (h * 257 + Byte.to_N x + 1) mod 2 ^ 256) b 0.

Definition ledger : address := 100.
Definition admin : address := 1.
Definition alice : address := 2.
Definition bob : address := 3.
Definition mallory : address := 4.
Definition verifier : address := 9.

(** A verifier whose [verify] returns [verdict]: the call itself succeeds. *)
Definition verifier_returning (verdict : bool)
    : address -> bytes -> list uint256 -> bool * bytes :=
  fun _ _ _ => (true, abi_encode_bool verdict).

(** A chain on which every payee accepts payment, and one on which none
    does. *)
Definition paying (sender : address) (now : uint256) : Ctx :=
  mkCtx sender now (verifier_returning false) (fun _ _ _ => [])
        (fun _ _ => true).

Definition refusing (sender : address) (now : uint256) : Ctx :=
  mkCtx sender now (verifier_returning false) (fun _ _ _ => [])
        (fun _ _ => false).

(** A chain on which every payee accepts payment and the verifier, while it
    is called, makes the calls [calls] into the ledger. *)
Definition reentering (sender : address) (now : uint256)
    (calls : list (Ctx * Call)) : Ctx :=
  mkCtx sender now (verifier_returning true) (fun _ _ _ => calls)
        (fun _ _ => true).

Definition exec := transact sample_keccak256 ledger.
Definition after := fun txs => run sample_keccak256 ledger txs (constructor admin).

(** Alice has funded job 7 for Bob with 10 wei at time 1000. *)
Definition funded : State :=
  after [(paying alice 1000, CreateEscrow 10 7 bob)].

(** The same, and the administrator has configured the verifier. *)
Definition funded_with_verifier : State :=
  after [(paying alice 1000, CreateEscrow 10 7 bob);
         (paying admin 1001, SetVerifier verifier)].

(** Job 7 was funded and then released by Alice. *)
Definition released : State :=
  after [(paying alice 1000, CreateEscrow 10 7 bob);
         (paying alice 1002, ReleaseEscrow 7 42)].

(** The state in which Alice's release of job 7 attempts the transfer. *)
Definition at_transfer : State :=
  match releaseEscrow_until_transfer (refusing alice 1002) 7 42 funded with
  | Ok _ s1 => s1
  | Revert _ => funded
  end.

(** Job 7 was funded and then refunded by the administrator. *)
Definition refunded : State :=
  after [(paying alice 1000, CreateEscrow 10 7 bob);
         (paying admin 1002, RefundEscrow 7 "no proof")].

(** The administrator has handed the ledger over to Alice. *)
Definition handed_over : State :=
  after [(paying alice 1000, CreateEscrow 10 7 bob);
         (paying admin 1003, TransferOwnership alice)].

(** Alice has funded jobs 7 and 8 for Bob with 10 wei each at time 1000,
    and the administrator has configured Alice's own contract as the
    verifier. *)
Definition two_jobs : State :=
  after [(paying alice 1000, CreateEscrow 10 7 bob);
         (paying alice 1000, CreateEscrow 10 8 bob);
         (paying admin 1001, SetVerifier alice)].

(** A day later a stranger calls [releaseWithProof] for job 7, and the
    verifier, Alice's contract, claims the refund of job 7 while it is being
    called. *)
Definition day_after : uint256 := 1000 + HOURS_24 + 1.

Definition refund_inside : Ctx :=
  reentering mallory day_after
    [(paying alice day_after, RefundEscrow 7 "timeout")].

Definition twice_settled : State :=
  after [(paying alice 1000, CreateEscrow 10 7 bob);
         (paying alice 1000, CreateEscrow 10 8 bob);
         (paying admin 1001, SetVerifier alice);
         (refund_inside, ReleaseWithProof 7 [x01] [])].

(** Alice's locked total has reached [2^255], and the administrator has
    swept the ledger. *)
Definition heavily_locked : State :=
  after [(paying alice 1000, CreateEscrow (2 ^ 255) 1 bob);
         (paying admin 1001, EmergencyWithdraw)].

(** ** Proof automation *)

Ltac unfold_contract :=
  unfold transact, transact_with, body, createEscrow, releaseEscrow,
    releaseWithProof, releaseWithProof_after_verifier, call_verifier,
    refundEscrow, setVerifier, transferOwnership, emergencyWithdraw,
    releaseEscrow_until_transfer, releaseEscrow_transfer,
    refundEscrow_until_transfer, refundEscrow_transfer,
    onlyOwner, escrowExists, escrowNotSettled, lockedBalance_add,
    lockedBalance_sub, providerEarnings_add, call_value, add256, sub256,
    emit, assign, field, require, revert, write, read, bind, ret, credit in *.

Ltac eqb_facts :=
  cbn in *;
  repeat match goal with
  | H : negb _ = true |- _ => apply negb_true_iff in H
  | H : negb _ = false |- _ => apply negb_false_iff in H
  | H : (_ || _)%bool = true |- _ => apply orb_true_iff in H
  | H : (_ || _)%bool = false |- _ => apply orb_false_iff in H; destruct H
  | H : (_ && _)%bool = true |- _ => apply andb_true_iff in H; destruct H
  | H : (_ =? _) = true |- _ => apply N.eqb_eq in H
  | H : (_ =? _) = false |- _ => apply N.eqb_neq in H
  | H : (_ <? _) = true |- _ => apply N.ltb_lt in H
  | H : (_ <? _) = false |- _ => apply N.ltb_ge in H
  | H : (_ <=? _) = true |- _ => apply N.leb_le in H
  | H : (_ <=? _) = false |- _ => apply N.leb_gt in H
  end.

Ltac finish :=
  repeat match goal with
  | Hr : escrows ?s ?j = _, H : context [escrows ?s ?j] |- _ =>
      progress (rewrite Hr in H); cbn in H
  end;
  eqb_facts;
  repeat match goal with
  | H : _ \/ _ |- _ => destruct H
  | H : _ /\ _ |- _ => destruct H
  end;
  eqb_facts; subst; try reflexivity; try lia; try congruence; try tauto.

Ltac split_if :=
  match goal with
  | |- context [call_verify ?c ?v ?p ?i] =>
      destruct (call_verify c v p i) as [? ?] eqn:?
  | |- context [if ?b then _ else _] =>
      lazymatch b with
      | context [if _ then _ else _] => fail
      | _ => destruct b eqn:?
      end
  end.

Lemma upd_same {V : Type} (m : N -> V) (k : N) (v : V) : upd m k v k = v.
Proof. unfold upd. now rewrite N.eqb_refl. Qed.

Lemma upd_other {V : Type} (m : N -> V) (k k' : N) (v : V) :
  k' <> k -> upd m k v k' = m k'.
Proof. intros H. unfold upd. apply N.eqb_neq in H. now rewrite H. Qed.

Ltac crunch Hr :=
  repeat (rewrite ?upd_same; cbn; rewrite ?Hr; cbn);
  repeat (split_if; cbn; rewrite ?upd_same, ?Hr; cbn).

Ltac solve_fields Hr :=
  intros; unfold isPending in *; cbn in *; unfold upd in *; cbn in *;
  rewrite ?N.eqb_refl in *; cbn in *; rewrite ?Hr; cbn;
  repeat match goal with
  | |- context [?a =? ?b] => destruct (N.eqb_spec a b); cbn
  end;
  rewrite ?Hr; cbn;
  try match goal with
  | |- context [0 <? ?a] => destruct (N.ltb_spec 0 a); cbn
  end;
  finish.

Section Properties.

Variable keccak256 : bytes -> bytes32.
Variable this : address.

(** A failed call leaves the state it found. *)
Lemma transact_failed_unchanged (c : Ctx) (f : Call) (s : State) (e : Failure) :
  snd (transact keccak256 this c f s) = Failed e ->
  fst (transact keccak256 this c f s) = s.
Proof.
  unfold transact, transact_with.
  destruct (body keccak256 this _ c f s); cbn;
    [discriminate | reflexivity].
Qed.

(** C3 (as amended).  [createEscrow] is rejected with [InvalidAmount] when
    the amount is zero, with [InvalidProvider] when the provider is the zero
    address or the caller, and with [DuplicateJob] when the job already has
    a record (a nonzero amount), whoever the caller is; the first failing
    check, in this order, decides the error, and a rejected call changes
    nothing.  When no condition holds and the caller's locked total plus the
    amount fits in 256 bits, the call succeeds and stores a fresh record
    whose buyer is the caller; when the total would not fit, the checked
    addition reverts the call. *)
Theorem createEscrow_outcomes :
  forall (c : Ctx) (v : uint256) (jobId : bytes32) (p : address) (s : State),
    let out := transact keccak256 this c (CreateEscrow v jobId p) s in
    (v = 0 -> rejected InvalidAmount s out)
    /\ (v <> 0 -> p = 0 \/ p = msg_sender c -> rejected InvalidProvider s out)
    /\ (v <> 0 -> p <> 0 -> p <> msg_sender c ->
        amount (escrows s jobId) <> 0 -> rejected DuplicateJob s out)
    /\ (v = 0 \/ p = 0 \/ p = msg_sender c \/ amount (escrows s jobId) <> 0 ->
        exists f, out = (s, Failed f))
    /\ (v <> 0 -> p <> 0 -> p <> msg_sender c ->
        amount (escrows s jobId) = 0 ->
        (lockedBalance s (msg_sender c) + v <= MAX_UINT256 ->
         snd out = Success
         /\ escrows (fst out) jobId =
              mkEscrow (msg_sender c) p v (block_timestamp c) false false 0
         /\ lockedBalance (fst out) (msg_sender c) =
              lockedBalance s (msg_sender c) + v
         /\ balance (fst out) = balance s + v)
        /\ (MAX_UINT256 < lockedBalance s (msg_sender c) + v ->
            out = (s, Failed (Panic 17)))).
Proof.
  intros c v jobId p s out. subst out.
  unfold rejected. unfold_contract. cbn.
  repeat split_if; eqb_facts; cbn;
    repeat match goal with
    | |- _ /\ _ => split
    | |- _ -> _ => intro
    | H : _ \/ _ |- _ => destruct H
    end;
    try lia; try congruence;
    try (eexists; split; [reflexivity | reflexivity]);
    try (eexists; reflexivity);
    rewrite ?upd_same; try reflexivity.
Qed.

(** C4.  A successful [releaseEscrow] on a pending record raises the
    provider's earnings by the record's amount, lowers the buyer's locked
    balance by the same amount, sets [isReleased] and stores the supplied
    proof hash; the other fields of the record stay as they were. *)
Theorem releaseEscrow_effect :
  forall (c : Ctx) (jobId h : bytes32) (s s' : State),
    isPending s jobId = true ->
    transact keccak256 this c (ReleaseEscrow jobId h) s = (s', Success) ->
    let r := escrows s jobId in
    providerEarnings s' (provider r) = providerEarnings s (provider r) + amount r
    /\ lockedBalance s' (buyer r) + amount r = lockedBalance s (buyer r)
    /\ escrows s' jobId =
         mkEscrow (buyer r) (provider r) (amount r) (createdAt r) true false h.
Proof.
  intros c jobId h s s' Hp Ht r. subst r.
  unfold isPending in Hp. revert Ht. unfold_contract. cbn.
  destruct (escrows s jobId) as [b p a t rel ref ph] eqn:Hr. cbn in *.
  repeat (rewrite ?upd_same; cbn; rewrite ?Hr; cbn).
  repeat (split_if; cbn; rewrite ?upd_same, ?Hr; cbn);
    intros Ht; inversion Ht; subst; clear Ht; eqb_facts; subst; cbn;
    rewrite ?upd_same, ?Hr; cbn; repeat split; try lia; try congruence.
Qed.

(** C5.  A successful [refundEscrow] on a pending record lowers the buyer's
    locked balance by the record's amount and sets [isRefunded]; every other
    locked balance, every earnings total and every other record is left as
    it was. *)
Theorem refundEscrow_effect :
  forall (c : Ctx) (jobId : bytes32) (reason : string) (s s' : State),
    isPending s jobId = true ->
    transact keccak256 this c (RefundEscrow jobId reason) s = (s', Success) ->
    let r := escrows s jobId in
    lockedBalance s' (buyer r) + amount r = lockedBalance s (buyer r)
    /\ (forall a, a <> buyer r -> lockedBalance s' a = lockedBalance s a)
    /\ (forall a, providerEarnings s' a = providerEarnings s a)
    /\ escrows s' jobId =
         mkEscrow (buyer r) (provider r) (amount r) (createdAt r)
                  false true (proofHash r)
    /\ (forall j, j <> jobId -> escrows s' j = escrows s j).
Proof.
  intros c jobId reason s s' Hp Ht r. subst r.
  unfold isPending in Hp. revert Ht. unfold_contract. cbn.
  destruct (escrows s jobId) as [b p a t rel ref ph] eqn:Hr. cbn in *.
  repeat (rewrite ?upd_same; cbn; rewrite ?Hr; cbn).
  repeat (split_if; cbn; rewrite ?upd_same, ?Hr; cbn);
    intros Ht; inversion Ht; subst; clear Ht; eqb_facts; subst; cbn;
    rewrite ?upd_same, ?Hr; cbn; repeat split; intros;
    rewrite ?upd_other by assumption; try lia; try congruence.
Qed.

(** *** [refundEscrow], case by case *)

Lemma classify_TooEarly (f : Failure) :
  classify f = Some TooEarly <-> f = Error "Cannot refund yet".
Proof.
  split; [| intros ->; reflexivity].
  destruct f as [r | n]; cbn; [| discriminate].
  repeat match goal with
  | |- context [String.eqb ?a ?b] => destruct (String.eqb_spec a b)
  end; try discriminate.
  intros _. now subst.
Qed.

Lemma refundEscrow_too_early (c : Ctx) (jobId : bytes32) (reason : string) (s : State) :
  isPending s jobId = true ->
  msg_sender c = buyer (escrows s jobId) ->
  msg_sender c <> owner s ->
  createdAt (escrows s jobId) + HOURS_24 <= MAX_UINT256 ->
  block_timestamp c <= createdAt (escrows s jobId) + HOURS_24 ->
  transact keccak256 this c (RefundEscrow jobId reason) s =
    (s, Failed (Error "Cannot refund yet")).
Proof.
  unfold isPending. unfold_contract.
  destruct (escrows s jobId) as [b p a t rel ref ph] eqn:Hr.
  intros Hp Hb Ho Hovf Hnow. eqb_facts. subst.
  crunch Hr; finish.
Qed.

Lemma refundEscrow_unauthorized (c : Ctx) (jobId : bytes32) (reason : string) (s : State) :
  isPending s jobId = true ->
  msg_sender c <> buyer (escrows s jobId) ->
  msg_sender c <> owner s ->
  transact keccak256 this c (RefundEscrow jobId reason) s =
    (s, Failed (Error "Not authorized")).
Proof.
  unfold isPending. unfold_contract.
  destruct (escrows s jobId) as [b p a t rel ref ph] eqn:Hr.
  intros Hp Hb Ho. eqb_facts. subst.
  crunch Hr; finish.
Qed.

Lemma refundEscrow_owner_any_time (c : Ctx) (jobId : bytes32) (reason : string)
    (s : State) (t : uint256) :
  msg_sender c = owner s ->
  transact keccak256 this (with_timestamp t c) (RefundEscrow jobId reason) s =
  transact keccak256 this c (RefundEscrow jobId reason) s.
Proof.
  intros Ho. unfold_contract. cbn. rewrite Ho.
  repeat (rewrite ?N.eqb_refl, ?orb_true_r; cbn; try split_if); reflexivity.
Qed.

Lemma refundEscrow_owner_not_too_early (c : Ctx) (jobId : bytes32) (reason : string)
    (s s' : State) :
  msg_sender c = owner s ->
  transact keccak256 this c (RefundEscrow jobId reason) s <>
    (s', Failed (Error "Cannot refund yet")).
Proof.
  intros Ho. unfold_contract. cbn. rewrite Ho.
  repeat (rewrite ?N.eqb_refl, ?orb_true_r; cbn; try split_if); congruence.
Qed.

Lemma refundEscrow_owner_succeeds (c : Ctx) (jobId : bytes32) (reason : string) (s : State) :
  isPending s jobId = true ->
  msg_sender c = owner s ->
  deliverable this c (buyer (escrows s jobId)) (amount (escrows s jobId)) s ->
  amount (escrows s jobId) <= lockedBalance s (buyer (escrows s jobId)) ->
  (owner s = buyer (escrows s jobId) ->
   createdAt (escrows s jobId) + HOURS_24 <= MAX_UINT256) ->
  let out := transact keccak256 this c (RefundEscrow jobId reason) s in
  snd out = Success /\ isRefunded (escrows (fst out) jobId) = true.
Proof.
  unfold isPending, deliverable. unfold_contract.
  destruct (escrows s jobId) as [b p a t rel ref ph] eqn:Hr.
  intros Hp Ho [Hbal Hacc] Hlock Hovf. eqb_facts. subst. rewrite Ho.
  crunch Hr; try (split; reflexivity); finish.
Qed.

Lemma refundEscrow_owner_undeliverable (c : Ctx) (jobId : bytes32) (reason : string)
    (s : State) :
  isPending s jobId = true ->
  msg_sender c = owner s ->
  ~ deliverable this c (buyer (escrows s jobId)) (amount (escrows s jobId)) s ->
  amount (escrows s jobId) <= lockedBalance s (buyer (escrows s jobId)) ->
  createdAt (escrows s jobId) + HOURS_24 <= MAX_UINT256 ->
  transact keccak256 this c (RefundEscrow jobId reason) s =
    (s, Failed (Error "Transfer failed")).
Proof.
  unfold isPending, deliverable. unfold_contract.
  destruct (escrows s jobId) as [b p a t rel ref ph] eqn:Hr.
  intros Hp Ho Hno Hlock Hovf. eqb_facts. subst. rewrite Ho.
  crunch Hr; finish; exfalso; apply Hno; split; auto; lia.
Qed.

(** *** Failing transfers *)

Lemma releaseEscrow_sequence (c : Ctx) (jobId h : bytes32) (s : State) :
  releaseEscrow this c jobId h s =
  (releaseEscrow_until_transfer c jobId h ;;
   releaseEscrow_transfer this c jobId h) s.
Proof.
  unfold_contract. cbn. repeat (split_if; cbn; try reflexivity).
Qed.

Lemma refundEscrow_sequence (c : Ctx) (jobId : bytes32) (reason : string) (s : State) :
  refundEscrow this c jobId reason s =
  (refundEscrow_until_transfer c jobId ;;
   refundEscrow_transfer this c jobId reason) s.
Proof.
  unfold_contract. cbn. repeat (split_if; cbn; try reflexivity).
Qed.

(** C8 (as amended).  When the payout transfer of [releaseEscrow] or
    [refundEscrow] fails, the call fails with [TransferFailed].  The terminal
    flag and the balance totals are indeed written before the transfer is
    attempted (the state [s1] in which it is attempted has them), but the
    failed call reverts: the state after it is the state before it, in which
    the record is still pending and the totals are untouched. *)
Theorem transfer_failure_reverts :
  forall (c : Ctx) (jobId : bytes32) (s s1 : State),
    let r := escrows s jobId in
    (forall h,
       releaseEscrow_until_transfer c jobId h s = Ok tt s1 ->
       call_value this c (provider (escrows s1 jobId))
                  (amount (escrows s1 jobId)) s1 = Ok false s1 ->
       (isReleased (escrows s1 jobId) = true
        /\ lockedBalance s1 (buyer r) + amount r = lockedBalance s (buyer r)
        /\ providerEarnings s1 (provider r) =
             providerEarnings s (provider r) + amount r)
       /\ transact keccak256 this c (ReleaseEscrow jobId h) s =
            (s, Failed (Error "Transfer failed"))
       /\ isPending s jobId = true)
    /\ (forall reason,
          refundEscrow_until_transfer c jobId s = Ok tt s1 ->
          call_value this c (buyer (escrows s1 jobId))
                     (amount (escrows s1 jobId)) s1 = Ok false s1 ->
          (isRefunded (escrows s1 jobId) = true
           /\ lockedBalance s1 (buyer r) + amount r = lockedBalance s (buyer r))
          /\ transact keccak256 this c (RefundEscrow jobId reason) s =
               (s, Failed (Error "Transfer failed"))
          /\ isPending s jobId = true).
Proof.
  intros c jobId s s1 r. subst r. unfold isPending.
  destruct (escrows s jobId) as [b p a t rel ref ph] eqn:Hr.
  cbn [buyer provider amount createdAt isReleased isRefunded].
  split; [intros h | intros reason].
  all: unfold transact, transact_with, body; rewrite ?releaseEscrow_sequence,
         ?refundEscrow_sequence; unfold bind at 1.
  all: intros Hpre; rewrite Hpre; revert Hpre.
  all: unfold_contract; crunch Hr; try discriminate.
  all: intros Hpre; inversion Hpre; subst s1; clear Hpre; cbn;
         rewrite ?upd_same; cbn.
  all: repeat (split_if; cbn); try discriminate; intros _.
  all: finish; repeat split; try reflexivity; try lia.
Qed.

(** *** [releaseWithProof] *)

Lemma reenter_nil (n : nat) (s : State) : reenter keccak256 this n [] s = s.
Proof. destruct n; reflexivity. Qed.

Lemma reenter_succ (n : nat) (calls : list (Ctx * Call)) (s : State) :
  reenter keccak256 this (S n) calls s =
  fold_left (step_with keccak256 this (reenter keccak256 this n)) calls s.
Proof. reflexivity. Qed.

(** A verifier that makes no call into the ledger leaves its state. *)
Lemma after_verifier_quiet (c : Ctx) (proof : bytes) (inputs : list uint256)
    (s : State) :
  verifier_calls c (verifierContract s) proof inputs = [] ->
  after_verifier keccak256 this c proof inputs s = s.
Proof. unfold after_verifier. intros ->. apply reenter_nil. Qed.

Lemma isPending_positive (s : State) (j : bytes32) :
  isPending s j = true ->
  0 < amount (escrows s j)
  /\ isReleased (escrows s j) = false /\ isRefunded (escrows s j) = false.
Proof.
  unfold isPending. intros H. apply andb_true_iff in H. destruct H as [H Hf].
  apply andb_true_iff in H. destruct H as [Hp Hr].
  apply N.ltb_lt in Hp. apply negb_true_iff in Hr, Hf. auto.
Qed.

Lemma releaseWithProof_not_pending (re : list (Ctx * Call) -> State -> State)
    (c : Ctx) (jobId : bytes32) (proof : bytes) (inputs : list uint256)
    (s : State) :
  isPending s jobId = false ->
  exists e, transact_with keccak256 this re c
              (ReleaseWithProof jobId proof inputs) s = (s, Failed e).
Proof.
  unfold isPending. unfold_contract.
  destruct (escrows s jobId) as [b p a t rel ref ph] eqn:Hr. cbn.
  intros Hp. crunch Hr; try (eexists; reflexivity); finish.
Qed.

Lemma releaseWithProof_no_verifier_with (re : list (Ctx * Call) -> State -> State)
    (c : Ctx) (jobId : bytes32) (proof : bytes) (inputs : list uint256)
    (s : State) :
  isPending s jobId = true ->
  verifierContract s = 0 ->
  transact_with keccak256 this re c (ReleaseWithProof jobId proof inputs) s =
    (s, Failed (Error "Verifier not set")).
Proof.
  unfold isPending. unfold_contract.
  destruct (escrows s jobId) as [b p a t rel ref ph] eqn:Hr.
  intros Hp Hv. crunch Hr; finish.
Qed.

Lemma releaseWithProof_call_failed_with (re : list (Ctx * Call) -> State -> State)
    (c : Ctx) (jobId : bytes32) (proof : bytes) (inputs : list uint256)
    (s : State) :
  isPending s jobId = true ->
  verifierContract s <> 0 ->
  fst (call_verify c (verifierContract s) proof inputs) = false ->
  transact_with keccak256 this re c (ReleaseWithProof jobId proof inputs) s =
    (s, Failed (Error "Proof verification failed")).
Proof.
  unfold isPending. unfold_contract.
  destruct (escrows s jobId) as [b p a t rel ref ph] eqn:Hr.
  intros Hp Hv Hcall. crunch Hr; finish;
    match goal with
    | H : call_verify _ _ _ _ = _ |- _ => rewrite H in Hcall; cbn in Hcall
    end; congruence.
Qed.

(** Once the checks have passed and the call to the verifier has succeeded,
    the function resumes in the state the verifier's calls have left. *)
Lemma releaseWithProof_resumes (re : list (Ctx * Call) -> State -> State)
    (c : Ctx) (jobId : bytes32) (proof : bytes) (inputs : list uint256)
    (s : State) :
  isPending s jobId = true ->
  verifierContract s <> 0 ->
  fst (call_verify c (verifierContract s) proof inputs) = true ->
  transact_with keccak256 this re c (ReleaseWithProof jobId proof inputs) s =
    match releaseWithProof_after_verifier keccak256 this c jobId proof
            (re (verifier_calls c (verifierContract s) proof inputs) s) with
    | Ok _ s' => (s', Success)
    | Revert e => (s, Failed e)
    end.
Proof.
  unfold isPending. unfold_contract.
  destruct (escrows s jobId) as [b p a t rel ref ph] eqn:Hr.
  intros Hp Hv Hcall. eqb_facts. subst.
  crunch Hr; finish;
    try match goal with
    | H : call_verify _ _ _ _ = _ |- _ => rewrite H in Hcall; cbn in Hcall
    end; try congruence; rewrite ?upd_same; reflexivity.
Qed.

Lemma releaseWithProof_no_verifier (c : Ctx) (jobId : bytes32) (proof : bytes)
    (inputs : list uint256) (s : State) :
  isPending s jobId = true ->
  verifierContract s = 0 ->
  transact keccak256 this c (ReleaseWithProof jobId proof inputs) s =
    (s, Failed (Error "Verifier not set")).
Proof. apply releaseWithProof_no_verifier_with. Qed.

Lemma releaseWithProof_call_failed (c : Ctx) (jobId : bytes32) (proof : bytes)
    (inputs : list uint256) (s : State) :
  isPending s jobId = true ->
  verifierContract s <> 0 ->
  fst (call_verify c (verifierContract s) proof inputs) = false ->
  transact keccak256 this c (ReleaseWithProof jobId proof inputs) s =
    (s, Failed (Error "Proof verification failed")).
Proof. apply releaseWithProof_call_failed_with. Qed.

(** The data returned by the verifier plays no part: two contexts whose
    verifier calls agree on the success flag give the same outcome. *)
Lemma releaseWithProof_returndata_unused (c : Ctx) (jobId : bytes32)
    (proof : bytes) (inputs : list uint256) (s : State) (data : bytes) :
  let c' := mkCtx (msg_sender c) (block_timestamp c)
                  (fun a pr i => (fst (call_verify c a pr i), data))
                  (verifier_calls c) (accepts_payment c) in
  transact keccak256 this c' (ReleaseWithProof jobId proof inputs) s =
  transact keccak256 this c (ReleaseWithProof jobId proof inputs) s.
Proof. reflexivity. Qed.

(** What the resumed part does, read off its result. *)
Lemma resumed_late_release (c : Ctx) (jobId : bytes32) (proof : bytes)
    (s s' : State) :
  releaseWithProof_after_verifier keccak256 this c jobId proof s = Ok tt s' ->
  0 < amount (escrows s jobId) ->
  late_release jobId (keccak256 proof) s s'.
Proof.
  unfold_contract.
  destruct (escrows s jobId) as [b p a t rel ref ph] eqn:Hr.
  crunch Hr; intros Ht Hpos; inversion Ht; subst; clear Ht; finish.
  all: constructor; solve_fields Hr.
Qed.

(** When the resumed part succeeds, and with what it fails. *)
Lemma resumed_outcome (c : Ctx) (jobId : bytes32) (proof : bytes) (s : State) :
  let r := escrows s jobId in
  let out := releaseWithProof_after_verifier keccak256 this c jobId proof s in
  (amount r <= lockedBalance s (buyer r) ->
   providerEarnings s (provider r) + amount r <= MAX_UINT256 ->
   deliverable this c (provider r) (amount r) s ->
   exists s', out = Ok tt s')
  /\ (lockedBalance s (buyer r) < amount r -> out = Revert (Panic 17))
  /\ (amount r <= lockedBalance s (buyer r) ->
      MAX_UINT256 < providerEarnings s (provider r) + amount r ->
      out = Revert (Panic 17))
  /\ (amount r <= lockedBalance s (buyer r) ->
      providerEarnings s (provider r) + amount r <= MAX_UINT256 ->
      ~ deliverable this c (provider r) (amount r) s ->
      out = Revert (Error "Transfer failed")).
Proof.
  unfold deliverable. unfold_contract.
  destruct (escrows s jobId) as [b p a t rel ref ph] eqn:Hr. cbn.
  repeat split; intros;
    crunch Hr; finish; try (eexists; reflexivity);
    try (exfalso; match goal with H : ~ _ |- _ => apply H end; split; auto; lia).
Qed.

(** *** Calls that re-enter the ledger *)

(** A relation between the state before and the state after that every
    call frame respects, given that the calls nested in it do, holds across
    nested calls, across a call sent from outside and across a sequence of
    such calls. *)
Section Related.

Variable R : State -> State -> Prop.
Hypothesis R_refl : forall s, R s s.
Hypothesis R_trans : forall s1 s2 s3, R s1 s2 -> R s2 s3 -> R s1 s3.
Hypothesis R_frame :
  forall re c f s,
    sendable f s = true ->
    (forall calls s0, R s0 (re calls s0)) ->
    R s (fst (transact_with keccak256 this re c f s)).

Lemma fold_step_related (re : list (Ctx * Call) -> State -> State) :
  (forall calls s0, R s0 (re calls s0)) ->
  forall calls s, R s (fold_left (step_with keccak256 this re) calls s).
Proof.
  intros Hre. induction calls as [| [c f] calls IH]; intros s; cbn [fold_left].
  - apply R_refl.
  - eapply R_trans; [| apply IH]. unfold step_with. cbn [fst snd].
    destruct (sendable f s) eqn:Hsend; [now apply R_frame | apply R_refl].
Qed.

Lemma reenter_related (n : nat) :
  forall calls s, R s (reenter keccak256 this n calls s).
Proof.
  induction n as [| n IH]; intros calls s.
  - apply R_refl.
  - rewrite reenter_succ. now apply fold_step_related.
Qed.

Lemma run_related (txs : list (Ctx * Call)) (s : State) :
  R s (run keccak256 this txs s).
Proof. unfold run, step. apply fold_step_related. apply reenter_related. Qed.

End Related.

(** *** What one call frame does *)

Ltac solve_effect Hr :=
  intros; unfold isPending in *; cbn in *; unfold upd in *; cbn in *;
  rewrite ?N.eqb_refl in *; cbn in *; rewrite ?Hr; cbn;
  repeat match goal with
  | |- context [?a =? ?b] => destruct (N.eqb_spec a b); cbn
  end;
  rewrite ?Hr; cbn;
  try match goal with
  | |- context [0 <? ?a] => destruct (N.ltb_spec 0 a); cbn
  end;
  finish.

Lemma idle_effect (f : Call) (s : State) : effect f s s.
Proof.
  apply eff_none; try reflexivity; [now left | right; lia].
Qed.

(** Every function but [releaseWithProof] runs without interruption up to
    its last external call. *)
Lemma atomic_effect (re : list (Ctx * Call) -> State -> State)
    (c : Ctx) (f : Call) (s : State) :
  (forall j p i, f <> ReleaseWithProof j p i) ->
  effect f s (fst (transact_with keccak256 this re c f s)).
Proof.
  intros Hf.
  destruct f as [v jobId p | jobId h | jobId proof inputs | jobId reason
                | v | o | | v];
    try (exfalso; now apply (Hf jobId proof inputs));
    unfold_contract; cbn;
    try (destruct (escrows s jobId) as [b p' a t rel ref ph] eqn:Hr);
    repeat (split_if; cbn; rewrite ?upd_same, ?Hr; cbn).
  all: finish.
  all: try (apply eff_none; unfold grows_by_admin_event; cbn; intros;
            solve [ reflexivity | left; reflexivity | right; lia
                  | right; eauto ]).
  all: try match goal with
    | |- effect _ _ (add_log (EscrowCreated ?j ?b ?p ?v) _) =>
        apply (eff_created _ _ _ j
                 (mkEscrow b p v (block_timestamp c) false false 0));
        solve_effect Hr
    | |- effect _ _ (add_log (EscrowReleased ?j _ _ ?h) _) =>
        apply (eff_released _ _ _ j h); solve_effect Hr
    | |- effect _ _ (add_log (EscrowRefunded ?j _ _ ?r) _) =>
        apply (eff_refunded _ _ _ j r); solve_effect Hr
    end.
Qed.

(** [releaseWithProof] is refused and changes nothing, or it resumes in the
    state the verifier has left and makes its writes there. *)
Lemma releaseWithProof_result (re : list (Ctx * Call) -> State -> State)
    (c : Ctx) (jobId : bytes32) (proof : bytes) (inputs : list uint256)
    (s : State) :
  let s' := fst (transact_with keccak256 this re c
                   (ReleaseWithProof jobId proof inputs) s) in
  let s1 := re (verifier_calls c (verifierContract s) proof inputs) s in
  s' = s
  \/ (isPending s jobId = true
      /\ releaseWithProof_after_verifier keccak256 this c jobId proof s1 =
           Ok tt s').
Proof.
  intros s' s1. subst s'.
  destruct (isPending s jobId) eqn:Hp.
  2: { left. destruct (releaseWithProof_not_pending re c jobId proof inputs s Hp)
         as [e ->]. reflexivity. }
  destruct (N.eq_dec (verifierContract s) 0) as [Hv | Hv].
  { left. now rewrite releaseWithProof_no_verifier_with. }
  destruct (fst (call_verify c (verifierContract s) proof inputs)) eqn:Hcall.
  2: { left. now rewrite releaseWithProof_call_failed_with. }
  rewrite (releaseWithProof_resumes re c jobId proof inputs s Hp Hv Hcall).
  fold s1.
  destruct (releaseWithProof_after_verifier keccak256 this c jobId proof s1)
    as [[] s2 | e] eqn:Hres; cbn [fst]; [| now left].
  right. split; reflexivity.
Qed.

Lemma frame_change (re : list (Ctx * Call) -> State -> State)
    (c : Ctx) (f : Call) (s : State) :
  let s' := fst (transact_with keccak256 this re c f s) in
  effect f s s'
  \/ exists jobId proof inputs,
       f = ReleaseWithProof jobId proof inputs
       /\ isPending s jobId = true
       /\ let s1 := re (verifier_calls c (verifierContract s) proof inputs) s in
          (0 < amount (escrows s1 jobId) ->
           late_release jobId (keccak256 proof) s1 s').
Proof.
  intros s'. subst s'.
  destruct f as [v jobId p | jobId h | jobId proof inputs | jobId reason
                | v | o | | v];
    try (left; apply atomic_effect; discriminate).
  destruct (releaseWithProof_result re c jobId proof inputs s)
    as [-> | [Hp Hres]].
  - left. apply idle_effect.
  - right. exists jobId, proof, inputs. split; [reflexivity |].
    split; [exact Hp |]. intros s1 Hpos.
    now apply (resumed_late_release c).
Qed.

(** *** The terms of a record *)

Lemma same_terms_refl (s : State) (j : bytes32) : same_terms s s j.
Proof. unfold same_terms. auto. Qed.

Lemma terms_kept_refl (s : State) : terms_kept s s.
Proof. intros j _. apply same_terms_refl. Qed.

Lemma terms_kept_trans (s1 s2 s3 : State) :
  terms_kept s1 s2 -> terms_kept s2 s3 -> terms_kept s1 s3.
Proof.
  intros H12 H23 j Hpos. destruct (H12 j Hpos) as [Hb [Hp [Ha Ht]]].
  assert (Hpos2 : 0 < amount (escrows s2 j)) by lia.
  destruct (H23 j Hpos2) as [Hb' [Hp' [Ha' Ht']]].
  unfold same_terms. repeat split; congruence.
Qed.

Lemma effect_terms_kept (f : Call) (s s' : State) :
  effect f s s' -> terms_kept s s'.
Proof.
  intros Heff j Hpos. unfold same_terms.
  destruct Heff as
    [Hrec _ _ _ _
    | j0 r Hnew _ _ _ _ _ _ Hrec _ _ _ _
    | j0 h _ Hrec _ _ _ _ _ _
    | j0 reason _ Hrec _ _ _ _ _ _];
    rewrite Hrec; auto;
    destruct (N.eqb_spec j j0) as [-> | _]; cbn; auto; lia.
Qed.

Lemma late_release_terms_kept (j0 h : bytes32) (s s' : State) :
  late_release j0 h s s' -> terms_kept s s'.
Proof.
  intros Hl j _. unfold same_terms. rewrite (lr_records _ _ _ _ Hl).
  destruct (N.eqb_spec j j0) as [-> | _]; cbn; auto.
Qed.

Lemma frame_terms_kept (re : list (Ctx * Call) -> State -> State)
    (c : Ctx) (f : Call) (s : State) :
  sendable f s = true ->
  (forall calls s0, terms_kept s0 (re calls s0)) ->
  terms_kept s (fst (transact_with keccak256 this re c f s)).
Proof.
  intros _ Hre.
  destruct (frame_change re c f s) as [Heff | [j [p [i [-> [Hpend Hl]]]]]].
  - now apply (effect_terms_kept f).
  - cbn zeta in Hl.
    pose proof (Hre (verifier_calls c (verifierContract s) p i) s) as Hk.
    destruct (isPending_positive s j Hpend) as [Hpos _].
    destruct (Hk j Hpos) as [_ [_ [Ha _]]].
    eapply terms_kept_trans; [exact Hk |].
    eapply late_release_terms_kept. apply Hl. lia.
Qed.

Lemma reenter_terms_kept (n : nat) (calls : list (Ctx * Call)) (s : State) :
  terms_kept s (reenter keccak256 this n calls s).
Proof.
  apply (reenter_related terms_kept terms_kept_refl terms_kept_trans
           frame_terms_kept).
Qed.

Lemma run_terms_kept (txs : list (Ctx * Call)) (s : State) :
  terms_kept s (run keccak256 this txs s).
Proof.
  apply (run_related terms_kept terms_kept_refl terms_kept_trans
           frame_terms_kept).
Qed.

(** *** Relations and invariants carried by every call *)

(** A relation that holds across the writes of each function holds across
    every call, nested calls included. *)
Section Changes.

Variable R : State -> State -> Prop.
Hypothesis R_refl : forall s, R s s.
Hypothesis R_trans : forall s1 s2 s3, R s1 s2 -> R s2 s3 -> R s1 s3.
Hypothesis R_effect : forall f s s', effect f s s' -> R s s'.
Hypothesis R_late : forall j h s s', late_release j h s s' -> R s s'.

Lemma frame_changes (re : list (Ctx * Call) -> State -> State)
    (c : Ctx) (f : Call) (s : State) :
  sendable f s = true ->
  (forall calls s0, R s0 (re calls s0) /\ terms_kept s0 (re calls s0)) ->
  R s (fst (transact_with keccak256 this re c f s))
  /\ terms_kept s (fst (transact_with keccak256 this re c f s)).
Proof.
  intros Hsend Hre.
  split; [| apply frame_terms_kept; [exact Hsend | intros; apply Hre]].
  destruct (frame_change re c f s) as [Heff | [j [p [i [-> [Hpend Hl]]]]]].
  - now apply (R_effect f).
  - cbn zeta in Hl.
    destruct (Hre (verifier_calls c (verifierContract s) p i) s) as [Hr Hk].
    destruct (isPending_positive s j Hpend) as [Hpos _].
    destruct (Hk j Hpos) as [_ [_ [Ha _]]].
    eapply R_trans; [exact Hr |].
    eapply R_late. apply Hl. lia.
Qed.

Lemma run_changes (txs : list (Ctx * Call)) (s : State) :
  R s (run keccak256 this txs s).
Proof.
  apply (run_related (fun s s' => R s s' /\ terms_kept s s')).
  - intros s0. split; [apply R_refl | apply terms_kept_refl].
  - intros s1 s2 s3 [H12 K12] [H23 K23].
    split; [eapply R_trans; eauto | eapply terms_kept_trans; eauto].
  - apply frame_changes.
Qed.

End Changes.

Lemma run_invariant (P : State -> Prop) :
  (forall f s s', effect f s s' -> P s -> P s') ->
  (forall j h s s', late_release j h s s' -> P s -> P s') ->
  forall txs s, P s -> P (run keccak256 this txs s).
Proof.
  intros Heff Hlate txs s.
  apply (run_changes (fun s s' => P s -> P s')); eauto.
Qed.

(** With a verifier that stays quiet, [releaseWithProof] too runs without
    interruption. *)
Lemma late_release_pending (f : Call) (j0 h : bytes32) (s s' : State) :
  isPending s j0 = true -> late_release j0 h s s' -> effect f s s'.
Proof.
  intros Hp [Hpos Hrec Hcov Hlock Hearn Hlog Hfunds Hbal].
  destruct (isPending_positive s j0 Hp) as [_ [_ Href]].
  rewrite Href in Hrec.
  now apply (eff_released f s s' j0 h).
Qed.

Lemma quiet_effect (c : Ctx) (f : Call) (s : State) :
  quiet c -> effect f s (fst (transact keccak256 this c f s)).
Proof.
  intros Hq. unfold transact.
  destruct (frame_change (reenter keccak256 this REENTRY_DEPTH) c f s)
    as [Heff | [j [p [i [-> [Hpend Hl]]]]]]; [exact Heff |].
  cbn zeta in Hl. rewrite Hq, reenter_nil in Hl.
  destruct (isPending_positive s j Hpend) as [Hpos _].
  apply (late_release_pending _ j (keccak256 p)); auto.
Qed.

Lemma run_quiet_invariant (P : State -> Prop) (Q : Call -> Prop) :
  (forall f s s', Q f -> effect f s s' -> P s -> P s') ->
  forall txs s,
    Forall (fun tx => quiet (fst tx) /\ Q (snd tx)) txs ->
    P s -> P (run keccak256 this txs s).
Proof.
  intros Hstep. unfold run.
  induction txs as [| [c f] txs IH]; intros s Hall Hs; cbn [fold_left];
    [exact Hs |].
  inversion Hall as [| tx l [Hq HQ] Htl]; subst. cbn [fst snd] in *.
  apply IH; [exact Htl |]. unfold step, step_with. cbn [fst snd].
  destruct (sendable f s); [| exact Hs].
  apply (Hstep f s); auto. now apply quiet_effect.
Qed.

(** *** Sums over jobs *)

Lemma sum_over_cons (f : bytes32 -> uint256) (x : bytes32) (l : list bytes32) :
  sum_over f (x :: l) = f x + sum_over f l.
Proof. reflexivity. Qed.

Lemma sum_over_ext (f g : bytes32 -> uint256) (l : list bytes32) :
  (forall j, In j l -> f j = g j) -> sum_over f l = sum_over g l.
Proof.
  induction l as [| x l IH]; intros Hfg; [reflexivity |].
  rewrite !sum_over_cons, (Hfg x), IH; auto using in_eq, in_cons.
Qed.

Lemma filter_absent (x : bytes32) (l : list bytes32) :
  ~ In x l -> filter (fun j => negb (j =? x)) l = l.
Proof.
  induction l as [| z l IH]; intros Hx; cbn [filter]; [reflexivity |].
  destruct (N.eqb_spec z x) as [-> | _]; cbn [negb].
  - exfalso. apply Hx. apply in_eq.
  - f_equal. apply IH. intros Hin. apply Hx. now apply in_cons.
Qed.

Lemma sum_over_without (f : bytes32 -> uint256) (x : bytes32) (l : list bytes32) :
  NoDup l -> In x l ->
  sum_over f l = f x + sum_over f (filter (fun j => negb (j =? x)) l).
Proof.
  induction 1 as [| y l Hy Hnd IH]; intros Hin; [contradiction |].
  rewrite sum_over_cons. cbn [filter].
  destruct (N.eqb_spec y x) as [-> | Hne]; cbn [negb].
  - now rewrite filter_absent.
  - rewrite sum_over_cons. destruct Hin as [-> | Hin]; [congruence |].
    rewrite (IH Hin). lia.
Qed.

Lemma sum_over_change (f g : bytes32 -> uint256) (l : list bytes32) (j0 : bytes32) :
  NoDup l -> In j0 l -> (forall j, j <> j0 -> f j = g j) ->
  sum_over f l + g j0 = sum_over g l + f j0.
Proof.
  intros Hnd Hin Hfg.
  rewrite (sum_over_without f j0 l Hnd Hin), (sum_over_without g j0 l Hnd Hin).
  rewrite (sum_over_ext f g (filter (fun j => negb (j =? j0)) l)); [lia |].
  intros j Hj. apply filter_In in Hj. destruct Hj as [_ Hne].
  apply negb_true_iff, N.eqb_neq in Hne. now apply Hfg.
Qed.

Lemma sum_over_off (f g : bytes32 -> uint256) (l : list bytes32) (j0 : bytes32) :
  ~ In j0 l -> (forall j, j <> j0 -> f j = g j) ->
  sum_over f l = sum_over g l.
Proof.
  intros Hout Hfg. apply sum_over_ext. intros j Hj. apply Hfg.
  intros ->. contradiction.
Qed.

Lemma sum_over_member (f : bytes32 -> uint256) (l : list bytes32) (j : bytes32) :
  In j l -> f j <= sum_over f l.
Proof.
  induction l as [| x l IH]; [intros [] |].
  rewrite sum_over_cons. intros [-> | Hin]; [lia |].
  specialize (IH Hin). lia.
Qed.

(** *** The records of a reachable state *)

Lemma effect_well_formed (f : Call) (s s' : State) :
  effect f s s' ->
  (forall j, well_formed (escrows s j)) ->
  forall j, well_formed (escrows s' j).
Proof.
  intros Heff Hwf j. specialize (Hwf j) as Hj.
  destruct Heff as
    [Hrec _ _ _ _
    | j0 r Hnew Hpos Hrel Href Hph Hp0 Hpb Hrec _ _ _ _
    | j0 h Hpend Hrec _ _ _ _ _ _
    | j0 reason Hpend Hrec _ _ _ _ _ _].
  - now rewrite Hrec.
  - rewrite Hrec. destruct (N.eqb_spec j j0) as [-> | _]; [| exact Hj].
    unfold well_formed. split; [intros; lia |]. split; auto.
  - rewrite Hrec. destruct (N.eqb_spec j j0) as [-> | _]; [| exact Hj].
    unfold isPending in Hpend. apply andb_true_iff in Hpend.
    destruct Hpend as [Hpend _]. apply andb_true_iff in Hpend.
    destruct Hpend as [Hpos _]. apply N.ltb_lt in Hpos.
    destruct Hj as [_ [Hprov _]]. unfold well_formed. cbn.
    split; [intros; lia |]. split; [intros _; now apply Hprov | discriminate].
  - rewrite Hrec. destruct (N.eqb_spec j j0) as [-> | _]; [| exact Hj].
    unfold isPending in Hpend. apply andb_true_iff in Hpend.
    destruct Hpend as [Hpend _]. apply andb_true_iff in Hpend.
    destruct Hpend as [Hpos Hrel]. apply N.ltb_lt in Hpos.
    apply negb_true_iff in Hrel.
    destruct Hj as [_ [Hprov Hph]]. unfold well_formed. cbn.
    split; [intros; lia |].
    split; [intros _; now apply Hprov | intros _; now apply Hph].
Qed.

Lemma late_release_well_formed (j0 h : bytes32) (s s' : State) :
  late_release j0 h s s' ->
  (forall j, well_formed (escrows s j)) ->
  forall j, well_formed (escrows s' j).
Proof.
  intros Hl Hwf j. rewrite (lr_records _ _ _ _ Hl).
  destruct (N.eqb_spec j j0) as [-> | _]; [| apply Hwf].
  destruct (Hwf j0) as [_ [Hprov _]].
  pose proof (lr_exists _ _ _ _ Hl) as Hpos.
  unfold well_formed. cbn.
  split; [intros; lia |]. split; [intros _; now apply Hprov | discriminate].
Qed.

Lemma constructor_well_formed (deployer : address) (j : bytes32) :
  well_formed (escrows (constructor deployer) j).
Proof.
  unfold well_formed. cbn. split; [reflexivity |]. split; [lia | reflexivity].
Qed.

Lemma reachable_well_formed (deployer : address) (txs : list (Ctx * Call))
    (j : bytes32) :
  well_formed (escrows (run keccak256 this txs (constructor deployer)) j).
Proof.
  revert j.
  apply (run_invariant (fun s => forall j, well_formed (escrows s j))).
  - apply effect_well_formed.
  - apply late_release_well_formed.
  - apply constructor_well_formed.
Qed.

(** A record with a terminal flag exists. *)
Lemma reachable_settled_exists (deployer : address) (txs : list (Ctx * Call))
    (j : bytes32) :
  let s := run keccak256 this txs (constructor deployer) in
  settled (escrows s j) = true -> 0 < amount (escrows s j).
Proof.
  intros s Hset.
  destruct (reachable_well_formed deployer txs j) as [Hzero _]. fold s in Hzero.
  destruct (N.eq_dec (amount (escrows s j)) 0) as [Hz | Hz]; [| lia].
  rewrite (Hzero Hz) in Hset. discriminate.
Qed.

(** *** Records and events *)

Lemma created_jobs_admin (s s' : State) :
  grows_by_admin_event s s' -> created_jobs s' = created_jobs s.
Proof.
  unfold created_jobs. intros [-> | [old [new ->]]]; reflexivity.
Qed.

Lemma effect_jobs_listed (f : Call) (s s' : State) :
  effect f s s' -> jobs_listed s -> jobs_listed s'.
Proof.
  intros Heff [Hnd Hin]. unfold jobs_listed.
  destruct Heff as
    [Hrec _ _ Hlog _
    | j0 r Hnew Hpos _ _ _ _ _ Hrec _ _ Hlog _
    | j0 h _ Hrec _ _ _ Hlog _ _
    | j0 reason _ Hrec _ _ _ Hlog _ _].
  - rewrite (created_jobs_admin s s' Hlog).
    split; [exact Hnd |]. intros j. rewrite Hrec. apply Hin.
  - assert (Hjobs : created_jobs s' = j0 :: created_jobs s).
    { unfold created_jobs. now rewrite Hlog. }
    assert (Hout : ~ In j0 (created_jobs s)).
    { intros Hj. apply Hin in Hj. lia. }
    rewrite Hjobs. split; [now constructor |].
    intros j. rewrite Hrec. cbn [In].
    destruct (N.eqb_spec j j0) as [-> | Hne]; [tauto |].
    rewrite <- Hin. split; [intros [H | H]; [congruence | exact H] | tauto].
  - assert (Hjobs : created_jobs s' = created_jobs s).
    { unfold created_jobs. now rewrite Hlog. }
    rewrite Hjobs. split; [exact Hnd |]. intros j. rewrite Hrec.
    destruct (N.eqb_spec j j0) as [-> | _]; cbn; apply Hin.
  - assert (Hjobs : created_jobs s' = created_jobs s).
    { unfold created_jobs. now rewrite Hlog. }
    rewrite Hjobs. split; [exact Hnd |]. intros j. rewrite Hrec.
    destruct (N.eqb_spec j j0) as [-> | _]; cbn; apply Hin.
Qed.

Lemma late_release_jobs_listed (j0 h : bytes32) (s s' : State) :
  late_release j0 h s s' -> jobs_listed s -> jobs_listed s'.
Proof.
  intros Hl [Hnd Hin]. unfold jobs_listed.
  assert (Hjobs : created_jobs s' = created_jobs s).
  { unfold created_jobs. now rewrite (lr_log _ _ _ _ Hl). }
  rewrite Hjobs. split; [exact Hnd |]. intros j.
  rewrite (lr_records _ _ _ _ Hl).
  destruct (N.eqb_spec j j0) as [-> | _]; cbn; apply Hin.
Qed.

Lemma reachable_jobs_listed (deployer : address) (txs : list (Ctx * Call)) :
  jobs_listed (run keccak256 this txs (constructor deployer)).
Proof.
  apply (run_invariant jobs_listed).
  - apply effect_jobs_listed.
  - apply late_release_jobs_listed.
  - split; [constructor |]. intros j. cbn. split; [intros [] | lia].
Qed.

Lemma effect_logged (f : Call) (s s' : State) :
  effect f s s' -> logged s -> logged s'.
Proof.
  intros Heff Hlog j. specialize (Hlog j) as [Hc [Hr Hf]].
  destruct Heff as
    [Hrec _ _ Hgrow _
    | j0 r Hnew Hpos Hrel Href Hph Hp0 Hpb Hrec _ _ Hl _
    | j0 h Hpend Hrec _ _ _ Hl _ _
    | j0 reason Hpend Hrec _ _ _ Hl _ _].
  - rewrite Hrec.
    assert (Hsub : forall e, In e (log s) -> In e (log s')).
    { intros e He. destruct Hgrow as [-> | [old [new ->]]];
        [exact He | now right]. }
    split; [auto |]. split; [auto |].
    intros H. destruct (Hf H) as [reason Hin]. eauto.
  - rewrite Hrec, Hl. destruct (N.eqb_spec j j0) as [-> | _].
    + rewrite Hrel, Href. split; [intros _; now left |].
      split; discriminate.
    + split; [intros H; right; auto |]. split; [intros H; right; auto |].
      intros H. destruct (Hf H) as [reason Hin]. exists reason. now right.
  - rewrite Hrec, Hl. destruct (N.eqb_spec j j0) as [-> | _].
    + cbn. split; [intros H; right; auto |].
      split; [intros _; now left | discriminate].
    + split; [intros H; right; auto |]. split; [intros H; right; auto |].
      intros H. destruct (Hf H) as [reason' Hin]. exists reason'. now right.
  - rewrite Hrec, Hl. destruct (N.eqb_spec j j0) as [-> | _].
    + destruct (isPending_positive s j0 Hpend) as [_ [Hrel _]].
      cbn. split; [intros H; right; auto |].
      split; [discriminate | intros _; exists reason; now left].
    + split; [intros H; right; auto |]. split; [intros H; right; auto |].
      intros H. destruct (Hf H) as [reason' Hin]. exists reason'. now right.
Qed.

Lemma late_release_logged (j0 h : bytes32) (s s' : State) :
  late_release j0 h s s' -> logged s -> logged s'.
Proof.
  intros Hl Hlog j. specialize (Hlog j) as [Hc [Hr Hf]].
  rewrite (lr_records _ _ _ _ Hl), (lr_log _ _ _ _ Hl).
  destruct (N.eqb_spec j j0) as [-> | _].
  - cbn. split; [intros H; right; auto |].
    split; [intros _; now left |].
    intros H. destruct (Hf H) as [reason Hin]. exists reason. now right.
  - split; [intros H; right; auto |]. split; [intros H; right; auto |].
    intros H. destruct (Hf H) as [reason Hin]. exists reason. now right.
Qed.

Lemma reachable_logged (deployer : address) (txs : list (Ctx * Call)) :
  logged (run keccak256 this txs (constructor deployer)).
Proof.
  apply (run_invariant logged).
  - apply effect_logged.
  - apply late_release_logged.
  - intros j. cbn. split; [lia |]. split; discriminate.
Qed.

(** *** The totals, as long as the verifier stays quiet *)

Lemma shares_of_record (s s' : State) (j : bytes32) :
  escrows s' j = escrows s j ->
  (forall b, locked_share s' b j = locked_share s b j)
  /\ (forall p, earned_share s' p j = earned_share s p j)
  /\ owed s' j = owed s j.
Proof.
  intros H. unfold locked_share, earned_share, owed, isPending.
  rewrite H. auto.
Qed.

Lemma effect_books_balanced (f : Call) (s s' : State) :
  effect f s s' -> books_balanced s -> books_balanced s'.
Proof.
  intros Heff [Hnd [Hin [Hlock Hearn]]].
  destruct Heff as
    [Hrec Hl He Hlog _
    | j0 r Hnew Hpos Hrel Href Hph Hp0 Hpb Hrec Hl He Hlog _
    | j0 h Hpend Hrec Hle Hl He Hlog _ _
    | j0 reason Hpend Hrec Hle Hl He Hlog _ _].
  - unfold books_balanced. rewrite (created_jobs_admin s s' Hlog).
    split; [exact Hnd |]. split; [intros j; rewrite Hrec; apply Hin |].
    split.
    + intros b. rewrite Hl, Hlock. apply sum_over_ext.
      intros j _. symmetry. now apply shares_of_record.
    + intros p. rewrite He, Hearn. apply sum_over_ext.
      intros j _. symmetry. now apply shares_of_record.
  - assert (Hjobs : created_jobs s' = j0 :: created_jobs s).
    { unfold created_jobs. now rewrite Hlog. }
    assert (Hout : ~ In j0 (created_jobs s)).
    { intros Hj. apply Hin in Hj. lia. }
    assert (Hoff : forall j, j <> j0 -> escrows s' j = escrows s j).
    { intros j Hj. rewrite Hrec. apply N.eqb_neq in Hj. now rewrite Hj. }
    assert (Hat : escrows s' j0 = r) by (now rewrite Hrec, N.eqb_refl).
    unfold books_balanced. rewrite Hjobs.
    split; [now constructor |]. split; [| split].
    + intros j. cbn [In]. destruct (N.eq_dec j0 j) as [<- | Hne].
      * rewrite Hat. tauto.
      * rewrite Hoff by congruence. rewrite <- Hin. tauto.
    + intros b. rewrite sum_over_cons, Hl.
      rewrite (sum_over_off (locked_share s' b) (locked_share s b) _ j0 Hout)
        by (intros j Hj; now apply shares_of_record, Hoff).
      unfold locked_share at 1. unfold isPending. rewrite Hat, Hrel, Href.
      apply N.ltb_lt in Hpos. rewrite Hpos. cbn.
      rewrite (N.eqb_sym (buyer r) b), Hlock.
      destruct (b =? buyer r); lia.
    + intros p. rewrite sum_over_cons, He.
      rewrite (sum_over_off (earned_share s' p) (earned_share s p) _ j0 Hout)
        by (intros j Hj; now apply shares_of_record, Hoff).
      unfold earned_share at 1. rewrite Hat, Hrel. cbn. now rewrite Hearn.
  - destruct (isPending_positive s j0 Hpend) as [Hpos [Hrel Href]].
    assert (Hjobs : created_jobs s' = created_jobs s).
    { unfold created_jobs. now rewrite Hlog. }
    assert (Hmem : In j0 (created_jobs s)) by now apply Hin.
    assert (Hoff : forall j, j <> j0 -> escrows s' j = escrows s j).
    { intros j Hj. rewrite Hrec. apply N.eqb_neq in Hj. now rewrite Hj. }
    assert (Hat : escrows s' j0 =
                  mkEscrow (buyer (escrows s j0)) (provider (escrows s j0))
                    (amount (escrows s j0)) (createdAt (escrows s j0))
                    true false h) by (now rewrite Hrec, N.eqb_refl).
    unfold books_balanced. rewrite Hjobs.
    split; [exact Hnd |]. split; [| split].
    + intros j. destruct (N.eq_dec j j0) as [-> | Hne].
      * rewrite Hat. cbn. tauto.
      * rewrite Hoff by assumption. apply Hin.
    + intros b.
      pose proof (sum_over_change (locked_share s b) (locked_share s' b)
                    _ j0 Hnd Hmem) as Hsum.
      rewrite <- Hlock in Hsum.
      assert (H0 : locked_share s' b j0 = 0).
      { unfold locked_share, isPending. rewrite Hat. cbn.
        now destruct (0 <? amount (escrows s j0)). }
      assert (H1 : locked_share s b j0 =
                   if b =? buyer (escrows s j0) then amount (escrows s j0) else 0).
      { unfold locked_share. rewrite Hpend. cbn. now rewrite N.eqb_sym. }
      rewrite H0, H1 in Hsum. rewrite Hl.
      specialize (Hsum (fun j Hj => eq_sym (proj1 (shares_of_record s s' j (Hoff j Hj)) b))).
      destruct (b =? buyer (escrows s j0)); lia.
    + intros p.
      pose proof (sum_over_change (earned_share s p) (earned_share s' p)
                    _ j0 Hnd Hmem) as Hsum.
      rewrite <- Hearn in Hsum.
      assert (H0 : earned_share s p j0 = 0).
      { unfold earned_share. now rewrite Hrel. }
      assert (H1 : earned_share s' p j0 =
                   if p =? provider (escrows s j0) then amount (escrows s j0) else 0).
      { unfold earned_share. rewrite Hat. cbn. now rewrite N.eqb_sym. }
      rewrite H0, H1 in Hsum. rewrite He.
      specialize (Hsum (fun j Hj =>
        eq_sym (proj1 (proj2 (shares_of_record s s' j (Hoff j Hj))) p))).
      destruct (p =? provider (escrows s j0)); lia.
  - destruct (isPending_positive s j0 Hpend) as [Hpos [Hrel Href]].
    assert (Hjobs : created_jobs s' = created_jobs s).
    { unfold created_jobs. now rewrite Hlog. }
    assert (Hmem : In j0 (created_jobs s)) by now apply Hin.
    assert (Hoff : forall j, j <> j0 -> escrows s' j = escrows s j).
    { intros j Hj. rewrite Hrec. apply N.eqb_neq in Hj. now rewrite Hj. }
    assert (Hat : escrows s' j0 =
                  mkEscrow (buyer (escrows s j0)) (provider (escrows s j0))
                    (amount (escrows s j0)) (createdAt (escrows s j0))
                    false true (proofHash (escrows s j0)))
      by (now rewrite Hrec, N.eqb_refl).
    unfold books_balanced. rewrite Hjobs.
    split; [exact Hnd |]. split; [| split].
    + intros j. destruct (N.eq_dec j j0) as [-> | Hne].
      * rewrite Hat. cbn. tauto.
      * rewrite Hoff by assumption. apply Hin.
    + intros b.
      pose proof (sum_over_change (locked_share s b) (locked_share s' b)
                    _ j0 Hnd Hmem) as Hsum.
      rewrite <- Hlock in Hsum.
      assert (H0 : locked_share s' b j0 = 0).
      { unfold locked_share, isPending. rewrite Hat. cbn.
        now destruct (0 <? amount (escrows s j0)). }
      assert (H1 : locked_share s b j0 =
                   if b =? buyer (escrows s j0) then amount (escrows s j0) else 0).
      { unfold locked_share. rewrite Hpend. cbn. now rewrite N.eqb_sym. }
      rewrite H0, H1 in Hsum. rewrite Hl.
      specialize (Hsum (fun j Hj => eq_sym (proj1 (shares_of_record s s' j (Hoff j Hj)) b))).
      destruct (b =? buyer (escrows s j0)); lia.
    + intros p. rewrite He, Hearn.
      pose proof (sum_over_change (earned_share s p) (earned_share s' p)
                    _ j0 Hnd Hmem) as Hsum.
      assert (H0 : earned_share s p j0 = 0).
      { unfold earned_share. now rewrite Hrel. }
      assert (H1 : earned_share s' p j0 = 0).
      { unfold earned_share. now rewrite Hat. }
      rewrite H0, H1 in Hsum.
      specialize (Hsum (fun j Hj =>
        eq_sym (proj1 (proj2 (shares_of_record s s' j (Hoff j Hj))) p))).
      lia.
Qed.

Lemma constructor_books_balanced (deployer : address) :
  books_balanced (constructor deployer).
Proof.
  unfold books_balanced. cbn. split; [constructor |].
  split; [intros j; split; [intros [] | lia] |]. split; reflexivity.
Qed.

Lemma quiet_books_balanced (deployer : address) (txs : list (Ctx * Call)) :
  Forall (fun tx => quiet (fst tx)) txs ->
  books_balanced (run keccak256 this txs (constructor deployer)).
Proof.
  intros Hq.
  apply (run_quiet_invariant books_balanced (fun _ => True)).
  - intros f s s' _. apply effect_books_balanced.
  - eapply Forall_impl; [| exact Hq]. cbn. auto.
  - apply constructor_books_balanced.
Qed.

Lemma effect_solvent (f : Call) (s s' : State) :
  effect f s s' -> is_sweep f = false ->
  books_balanced s -> solvent s -> solvent s'.
Proof.
  intros Heff Hf [Hnd [Hin _]] Hsol. unfold solvent in *.
  destruct Heff as
    [Hrec _ _ Hgrow Hbal
    | j0 r Hnew Hpos Hrel Href Hph Hp0 Hpb Hrec _ _ Hl Hbal
    | j0 h Hpend Hrec _ _ _ Hl Hhave Hbal
    | j0 reason Hpend Hrec _ _ _ Hl Hhave Hbal].
  - rewrite (created_jobs_admin s s' Hgrow).
    rewrite (sum_over_ext (owed s') (owed s))
      by (intros j _; now apply shares_of_record).
    destruct Hbal as [-> | Hbal]; [discriminate | lia].
  - assert (Hjobs : created_jobs s' = j0 :: created_jobs s).
    { unfold created_jobs. now rewrite Hl. }
    assert (Hout : ~ In j0 (created_jobs s)).
    { intros Hj. apply Hin in Hj. lia. }
    rewrite Hjobs, sum_over_cons.
    rewrite (sum_over_off (owed s') (owed s) _ j0 Hout).
    + assert (Hle : owed s' j0 <= amount r).
      { unfold owed, isPending. rewrite Hrec, N.eqb_refl.
        destruct (_ && _); lia. }
      lia.
    + intros j Hj. apply shares_of_record. rewrite Hrec.
      apply N.eqb_neq in Hj. now rewrite Hj.
  - assert (Hjobs : created_jobs s' = created_jobs s).
    { unfold created_jobs. now rewrite Hl. }
    destruct (isPending_positive s j0 Hpend) as [Hpos _].
    assert (Hmem : In j0 (created_jobs s)) by now apply Hin.
    pose proof (sum_over_change (owed s) (owed s') _ j0 Hnd Hmem) as Hsum.
    assert (H0 : owed s' j0 = 0).
    { unfold owed, isPending. rewrite Hrec, N.eqb_refl. cbn.
      now destruct (0 <? amount (escrows s j0)). }
    assert (H1 : owed s j0 = amount (escrows s j0)).
    { unfold owed. now rewrite Hpend. }
    rewrite H0, H1 in Hsum. rewrite Hjobs.
    assert (Hoff : forall j, j <> j0 -> owed s j = owed s' j).
    { intros j Hj. symmetry. apply shares_of_record. rewrite Hrec.
      apply N.eqb_neq in Hj. now rewrite Hj. }
    specialize (Hsum Hoff). lia.
  - assert (Hjobs : created_jobs s' = created_jobs s).
    { unfold created_jobs. now rewrite Hl. }
    destruct (isPending_positive s j0 Hpend) as [Hpos _].
    assert (Hmem : In j0 (created_jobs s)) by now apply Hin.
    pose proof (sum_over_change (owed s) (owed s') _ j0 Hnd Hmem) as Hsum.
    assert (H0 : owed s' j0 = 0).
    { unfold owed, isPending. rewrite Hrec, N.eqb_refl. cbn.
      now destruct (0 <? amount (escrows s j0)). }
    assert (H1 : owed s j0 = amount (escrows s j0)).
    { unfold owed. now rewrite Hpend. }
    rewrite H0, H1 in Hsum. rewrite Hjobs.
    assert (Hoff : forall j, j <> j0 -> owed s j = owed s' j).
    { intros j Hj. symmetry. apply shares_of_record. rewrite Hrec.
      apply N.eqb_neq in Hj. now rewrite Hj. }
    specialize (Hsum Hoff). lia.
Qed.

Lemma quiet_solvent (deployer : address) (txs : list (Ctx * Call)) :
  Forall (fun tx => quiet (fst tx) /\ is_sweep (snd tx) = false) txs ->
  solvent (run keccak256 this txs (constructor deployer))
  /\ books_balanced (run keccak256 this txs (constructor deployer)).
Proof.
  intros Hall.
  apply (run_quiet_invariant (fun s => solvent s /\ books_balanced s)
                             (fun f => is_sweep f = false)); [| exact Hall |].
  - intros f s s' Hf Heff [Hsol Hbooks]. split.
    + eapply effect_solvent; eauto.
    + eapply effect_books_balanced; eauto.
  - split; [| apply constructor_books_balanced].
    unfold solvent. cbn. lia.
Qed.

Lemma settled_jobs_admin (s s' : State) :
  grows_by_admin_event s s' -> settled_jobs s' = settled_jobs s.
Proof.
  unfold settled_jobs. intros [-> | [old [new ->]]]; reflexivity.
Qed.

Lemma effect_settled_once (f : Call) (s s' : State) :
  effect f s s' ->
  (forall j, well_formed (escrows s j)) ->
  settled_once s -> settled_once s'.
Proof.
  intros Heff Hwf [Hnd Hin]. unfold settled_once.
  destruct Heff as
    [Hrec _ _ Hgrow _
    | j0 r Hnew Hpos Hrel Href Hph Hp0 Hpb Hrec _ _ Hl _
    | j0 h Hpend Hrec _ _ _ Hl _ _
    | j0 reason Hpend Hrec _ _ _ Hl _ _].
  - rewrite (settled_jobs_admin s s' Hgrow). split; [exact Hnd |].
    intros j. rewrite Hrec. apply Hin.
  - assert (Hjobs : settled_jobs s' = settled_jobs s).
    { unfold settled_jobs. now rewrite Hl. }
    rewrite Hjobs. split; [exact Hnd |]. intros j. rewrite Hrec.
    destruct (N.eqb_spec j j0) as [-> | _]; [| apply Hin].
    rewrite Hin. destruct (Hwf j0) as [Hzero _].
    rewrite (Hzero Hnew). unfold settled. rewrite Hrel, Href. reflexivity.
  - destruct (isPending_positive s j0 Hpend) as [_ [Hrel Href]].
    assert (Hjobs : settled_jobs s' = j0 :: settled_jobs s).
    { unfold settled_jobs. now rewrite Hl. }
    assert (Hout : ~ In j0 (settled_jobs s)).
    { intros Hj. apply Hin in Hj. unfold settled in Hj.
      rewrite Hrel, Href in Hj. discriminate. }
    rewrite Hjobs. split; [now constructor |]. intros j. rewrite Hrec.
    cbn [In]. destruct (N.eqb_spec j j0) as [-> | Hne].
    + unfold settled. cbn. tauto.
    + rewrite <- Hin. split; [intros [H | H]; [congruence | exact H] | tauto].
  - destruct (isPending_positive s j0 Hpend) as [_ [Hrel Href]].
    assert (Hjobs : settled_jobs s' = j0 :: settled_jobs s).
    { unfold settled_jobs. now rewrite Hl. }
    assert (Hout : ~ In j0 (settled_jobs s)).
    { intros Hj. apply Hin in Hj. unfold settled in Hj.
      rewrite Hrel, Href in Hj. discriminate. }
    rewrite Hjobs. split; [now constructor |]. intros j. rewrite Hrec.
    cbn [In]. destruct (N.eqb_spec j j0) as [-> | Hne].
    + unfold settled. cbn. tauto.
    + rewrite <- Hin. split; [intros [H | H]; [congruence | exact H] | tauto].
Qed.

Lemma quiet_settled_once (deployer : address) (txs : list (Ctx * Call)) :
  Forall (fun tx => quiet (fst tx)) txs ->
  settled_once (run keccak256 this txs (constructor deployer)).
Proof.
  intros Hq.
  enough (H : (forall j, well_formed
                 (escrows (run keccak256 this txs (constructor deployer)) j))
              /\ settled_once (run keccak256 this txs (constructor deployer)))
    by (destruct H as [_ H]; exact H).
  apply (run_quiet_invariant
           (fun s => (forall j, well_formed (escrows s j)) /\ settled_once s)
           (fun _ => True)).
  - intros f s s' _ Heff [Hwf Hso]. split.
    + eapply effect_well_formed; eauto.
    + eapply effect_settled_once; eauto.
  - eapply Forall_impl; [| exact Hq]. cbn. auto.
  - split; [apply constructor_well_formed |].
    split; [constructor |]. intros j. cbn. split; [intros [] | discriminate].
Qed.

(** *** Calls on a settled record *)

Lemma settled_rejects (c : Ctx) (f : Call) (jobId : bytes32) (s : State) :
  0 < amount (escrows s jobId) ->
  settled (escrows s jobId) = true ->
  (exists h, f = ReleaseEscrow jobId h)
  \/ (exists proof inputs, f = ReleaseWithProof jobId proof inputs)
  \/ (exists reason, f = RefundEscrow jobId reason) ->
  rejected AlreadySettled s (transact keccak256 this c f s).
Proof.
  intros Hpos Hset Hf. unfold rejected, settled in *.
  apply N.ltb_lt in Hpos.
  destruct Hf as [[h ->] | [[proof [inputs ->]] | [reason ->]]];
    unfold_contract; cbn; rewrite Hpos; cbn;
    destruct (isReleased (escrows s jobId)); cbn;
    try (eexists; split; reflexivity);
    cbn in Hset; rewrite Hset; cbn; eexists; split; reflexivity.
Qed.

(** C7.  In every reachable state, on a record that has [isReleased] or
    [isRefunded] set, each of [releaseEscrow], [releaseWithProof] and
    [refundEscrow] is rejected with [AlreadySettled] whoever calls and
    whatever the arguments, and the state after the call is the state before
    it: record, locked balances and earnings included. *)
Theorem settled_job_rejects_settlement :
  forall (deployer : address) (txs : list (Ctx * Call)) (jobId : bytes32),
    let s := run keccak256 this txs (constructor deployer) in
    settled (escrows s jobId) = true ->
    forall (c : Ctx),
      (forall h, rejected AlreadySettled s
                   (transact keccak256 this c (ReleaseEscrow jobId h) s))
      /\ (forall proof inputs,
            rejected AlreadySettled s
              (transact keccak256 this c (ReleaseWithProof jobId proof inputs) s))
      /\ (forall reason,
            rejected AlreadySettled s
              (transact keccak256 this c (RefundEscrow jobId reason) s)).
Proof.
  intros deployer txs jobId s Hset c.
  assert (Hex : 0 < amount (escrows s jobId))
    by now apply reachable_settled_exists.
  repeat split; intros; apply (settled_rejects c _ jobId); eauto 6.
Qed.

(** *** [emergencyWithdraw] *)

(** The sweep sends the whole balance of the ledger to the owner and leaves
    storage as it is, pending records included. *)
Lemma emergencyWithdraw_takes_all (c : Ctx) (s : State) :
  msg_sender c = owner s ->
  owner s <> this ->
  accepts_payment c (owner s) (balance s) = true ->
  transact keccak256 this c EmergencyWithdraw s = (set_balance 0 s, Success).
Proof.
  intros Ho Hthis Hacc. unfold_contract. cbn. rewrite Ho, N.eqb_refl. cbn.
  rewrite N.ltb_irrefl. apply N.eqb_neq in Hthis. rewrite Hthis, Hacc.
  cbn. now rewrite N.sub_diag.
Qed.

(** *** The time gate of [refundEscrow] *)

Lemma refundEscrow_owner_underflow (c : Ctx) (jobId : bytes32) (reason : string)
    (s : State) :
  isPending s jobId = true ->
  msg_sender c = owner s ->
  createdAt (escrows s jobId) + HOURS_24 <= MAX_UINT256 ->
  lockedBalance s (buyer (escrows s jobId)) < amount (escrows s jobId) ->
  transact keccak256 this c (RefundEscrow jobId reason) s =
    (s, Failed (Panic 17)).
Proof.
  unfold isPending. unfold_contract.
  destruct (escrows s jobId) as [b p a t rel ref ph] eqn:Hr.
  intros Hp Ho Hovf Hlock. eqb_facts. subst. rewrite Ho.
  crunch Hr; finish.
Qed.

(** C6 (as amended).  On a pending record whose [createdAt + 24 hours] fits
    in 256 bits: the buyer, when not the administrator, is rejected with
    [TooEarly] at every time up to and including [createdAt + 24 hours]; the
    administrator is never held back by elapsed time: the outcome of the call
    is the same at every timestamp and it is never [TooEarly]; when the
    buyer's locked balance covers the amount it is a success if the payout
    to the buyer can be delivered and [TransferFailed] otherwise, and when
    the locked balance is below the amount the checked subtraction reverts
    the call; a caller who is neither buyer nor administrator is rejected
    with [Unauthorized]. *)
Theorem refundEscrow_time_gate :
  forall (c : Ctx) (jobId : bytes32) (reason : string) (s : State),
    isPending s jobId = true ->
    let r := escrows s jobId in
    createdAt r + HOURS_24 <= MAX_UINT256 ->
    let out := transact keccak256 this c (RefundEscrow jobId reason) s in
    (msg_sender c = buyer r -> msg_sender c <> owner s ->
     block_timestamp c <= createdAt r + HOURS_24 ->
     rejected TooEarly s out)
    /\ (msg_sender c = owner s ->
        (forall t, transact keccak256 this (with_timestamp t c)
                     (RefundEscrow jobId reason) s = out)
        /\ ~ rejected TooEarly s out
        /\ (amount r <= lockedBalance s (buyer r) ->
            (deliverable this c (buyer r) (amount r) s ->
             snd out = Success /\ isRefunded (escrows (fst out) jobId) = true)
            /\ (~ deliverable this c (buyer r) (amount r) s ->
                rejected TransferFailed s out))
        /\ (lockedBalance s (buyer r) < amount r ->
            out = (s, Failed (Panic 17))))
    /\ (msg_sender c <> buyer r -> msg_sender c <> owner s ->
        rejected Unauthorized s out).
Proof.
  intros c jobId reason s Hp r Hovf out. subst r out.
  unfold rejected. split; [| split].
  - intros Hb Ho Hnow. eexists. split.
    + now apply refundEscrow_too_early.
    + reflexivity.
  - intros Ho. split; [| split; [| split]].
    + intros t. now apply refundEscrow_owner_any_time.
    + intros [f [Hout Hf]]. apply classify_TooEarly in Hf. subst f.
      now apply refundEscrow_owner_not_too_early in Hout.
    + intros Hlock. split.
      * intros Hdel. apply refundEscrow_owner_succeeds; auto.
      * intros Hno. eexists. split.
        -- now apply refundEscrow_owner_undeliverable.
        -- reflexivity.
    + intros Hlock. now apply refundEscrow_owner_underflow.
  - intros Hb Ho. eexists. split.
    + now apply refundEscrow_unauthorized.
    + reflexivity.
Qed.

(** *** Who may call [releaseWithProof] *)

Lemma after_verifier_terms_kept (c : Ctx) (proof : bytes)
    (inputs : list uint256) (s : State) :
  terms_kept s (after_verifier keccak256 this c proof inputs s).
Proof. unfold after_verifier. apply reenter_terms_kept. Qed.

(** C10.  [releaseWithProof] never looks at its caller: called on the same
    state with the same arguments by any two callers it gives the same
    receipt and the same state.  In particular a caller who is neither the
    buyer of the record nor the administrator settles a pending job: the
    call succeeds whenever the call to the verifier succeeds and, in the
    state the verifier leaves, the buyer's locked balance covers the amount,
    the provider's earnings stay within 256 bits and the payout can be
    delivered. *)
Theorem releaseWithProof_any_caller :
  forall (c : Ctx) (jobId : bytes32) (proof : bytes) (inputs : list uint256)
         (s : State),
    (forall (a1 a2 : address),
       transact keccak256 this (with_sender a1 c)
         (ReleaseWithProof jobId proof inputs) s =
       transact keccak256 this (with_sender a2 c)
         (ReleaseWithProof jobId proof inputs) s)
    /\ (isPending s jobId = true ->
        msg_sender c <> buyer (escrows s jobId) -> msg_sender c <> owner s ->
        verifierContract s <> 0 ->
        fst (call_verify c (verifierContract s) proof inputs) = true ->
        let s1 := after_verifier keccak256 this c proof inputs s in
        let r := escrows s1 jobId in
        amount r <= lockedBalance s1 (buyer r) ->
        providerEarnings s1 (provider r) + amount r <= MAX_UINT256 ->
        deliverable this c (provider r) (amount r) s1 ->
        let out :=
          transact keccak256 this c (ReleaseWithProof jobId proof inputs) s in
        snd out = Success
        /\ isReleased (escrows (fst out) jobId) = true
        /\ isPending (fst out) jobId = false).
Proof.
  intros c jobId proof inputs s. split.
  - intros a1 a2. reflexivity.
  - intros Hp _ _ Hv Hcall s1 r Hlock Hearn Hdel out. subst out.
    unfold transact.
    rewrite (releaseWithProof_resumes _ c jobId proof inputs s Hp Hv Hcall).
    fold (after_verifier keccak256 this c proof inputs s). fold s1.
    destruct (resumed_outcome c jobId proof s1) as [Hok _].
    destruct (Hok Hlock Hearn Hdel) as [s' Hs']. rewrite Hs'. cbn [fst snd].
    destruct (isPending_positive s jobId Hp) as [Hpos _].
    destruct (after_verifier_terms_kept c proof inputs s jobId Hpos)
      as [_ [_ [Ha _]]]. fold s1 in Ha.
    assert (Hpos1 : 0 < amount (escrows s1 jobId)) by lia.
    pose proof (resumed_late_release c jobId proof s1 s' Hs' Hpos1) as Hl.
    split; [reflexivity |].
    unfold isPending. rewrite (lr_records _ _ _ _ Hl), N.eqb_refl. cbn.
    split; [reflexivity |]. now rewrite andb_false_r.
Qed.

(** ** Further properties of the contract *)

(** *** Bookkeeping *)

(** X1.  In every reachable state the jobs for which [EscrowCreated] was
    emitted are exactly the jobs that have a record (a nonzero amount), and
    no job identifier has been created twice. *)
Theorem created_jobs_are_the_records :
  forall (deployer : address) (txs : list (Ctx * Call)),
    let s := run keccak256 this txs (constructor deployer) in
    NoDup (created_jobs s)
    /\ forall j, In j (created_jobs s) <-> 0 < amount (escrows s j).
Proof.
  intros deployer txs s. apply reachable_jobs_listed.
Qed.

(** X2.  As long as no verifier calls back into the ledger, the locked
    balance of an address is, in every reachable state, the sum of the
    amounts of the pending records it funded. *)
Theorem lockedBalance_is_pending_total :
  forall (deployer : address) (txs : list (Ctx * Call)) (b : address),
    Forall (fun tx => quiet (fst tx)) txs ->
    let s := run keccak256 this txs (constructor deployer) in
    lockedBalance s b = sum_over (locked_share s b) (created_jobs s).
Proof.
  intros deployer txs b Hq s.
  destruct (quiet_books_balanced deployer txs Hq) as [_ [_ [Hlock _]]].
  apply Hlock.
Qed.

(** X3.  As long as no verifier calls back into the ledger, the earnings of
    an address are, in every reachable state, the sum of the amounts of the
    records released to it as provider. *)
Theorem providerEarnings_is_released_total :
  forall (deployer : address) (txs : list (Ctx * Call)) (p : address),
    Forall (fun tx => quiet (fst tx)) txs ->
    let s := run keccak256 this txs (constructor deployer) in
    providerEarnings s p = sum_over (earned_share s p) (created_jobs s).
Proof.
  intros deployer txs p Hq s.
  destruct (quiet_books_balanced deployer txs Hq) as [_ [_ [_ Hearn]]].
  apply Hearn.
Qed.

(** X4.  In every reachable state each record is backed by its events: an
    existing record by [EscrowCreated] with its buyer, provider and amount,
    a released one by [EscrowReleased] with the stored proof hash, a
    refunded one by an [EscrowRefunded] to its buyer. *)
Theorem records_have_their_events :
  forall (deployer : address) (txs : list (Ctx * Call)) (j : bytes32),
    let s := run keccak256 this txs (constructor deployer) in
    let r := escrows s j in
    (0 < amount r ->
     In (EscrowCreated j (buyer r) (provider r) (amount r)) (log s))
    /\ (isReleased r = true ->
        In (EscrowReleased j (provider r) (amount r) (proofHash r)) (log s))
    /\ (isRefunded r = true ->
        exists reason, In (EscrowRefunded j (buyer r) (amount r) reason) (log s)).
Proof.
  intros deployer txs j s r. apply (reachable_logged deployer txs j).
Qed.

(** X5.  As long as [emergencyWithdraw] has not been called and no
    verifier calls back into the ledger, the ledger holds at least the total
    of its pending records; in particular the amount of each pending record
    is there to be paid out. *)
Theorem ledger_without_sweep_is_solvent :
  forall (deployer : address) (txs : list (Ctx * Call)),
    Forall (fun tx => quiet (fst tx) /\ is_sweep (snd tx) = false) txs ->
    let s := run keccak256 this txs (constructor deployer) in
    sum_over (owed s) (created_jobs s) <= balance s
    /\ forall j, isPending s j = true -> amount (escrows s j) <= balance s.
Proof.
  intros deployer txs Hall s.
  destruct (quiet_solvent deployer txs Hall) as [Hsol [_ [Hin _]]].
  split; [exact Hsol |]. intros j Hp.
  destruct (isPending_positive _ j Hp) as [Hpos _].
  apply Hin in Hpos.
  pose proof (sum_over_member (owed s) _ j Hpos) as Hle.
  unfold owed at 1 in Hle. fold s in Hle. rewrite Hp in Hle.
  unfold solvent in Hsol. fold s in Hsol. lia.
Qed.

(** *** What a record can and cannot become *)

(** X6.  In every reachable state a job for which no [EscrowCreated] was
    emitted reads as the zero record through [getEscrow] and is not
    pending. *)
Theorem unknown_job_reads_zero :
  forall (deployer : address) (txs : list (Ctx * Call)) (j : bytes32),
    let s := run keccak256 this txs (constructor deployer) in
    ~ In j (created_jobs s) ->
    getEscrow s j = zero_record /\ isPending s j = false.
Proof.
  intros deployer txs j s Hout.
  destruct (reachable_jobs_listed deployer txs) as [_ Hin].
  assert (Hz : amount (escrows s j) = 0).
  { destruct (N.eq_dec (amount (escrows s j)) 0) as [H | H]; [exact H |].
    exfalso. apply Hout. apply Hin. fold s. lia. }
  destruct (reachable_well_formed deployer txs j) as [Hzero _].
  fold s in Hzero. unfold getEscrow, isPending.
  rewrite (Hzero Hz). split; reflexivity.
Qed.

(** X7.  In every reachable state the provider of an existing record is
    neither the zero address nor the record's buyer. *)
Theorem existing_record_parties :
  forall (deployer : address) (txs : list (Ctx * Call)) (j : bytes32),
    let s := run keccak256 this txs (constructor deployer) in
    0 < amount (escrows s j) ->
    provider (escrows s j) <> 0
    /\ provider (escrows s j) <> buyer (escrows s j).
Proof.
  intros deployer txs j s Hpos.
  destruct (reachable_well_formed deployer txs j) as [_ [Hprov _]].
  now apply Hprov.
Qed.

(** X8.  In every reachable state a record that is not released has the
    zero proof hash: only a release writes it, a refund leaves it zero. *)
Theorem proofHash_only_on_release :
  forall (deployer : address) (txs : list (Ctx * Call)) (j : bytes32),
    let s := run keccak256 this txs (constructor deployer) in
    isReleased (escrows s j) = false -> proofHash (escrows s j) = 0.
Proof.
  intros deployer txs j s Hrel.
  destruct (reachable_well_formed deployer txs j) as [_ [_ Hph]].
  now apply Hph.
Qed.

(** X9.  The terms of a record are fixed at creation: once a job has a
    record, no later sequence of calls changes its buyer, provider, amount
    or creation time. *)
Theorem record_terms_are_fixed :
  forall (deployer : address) (txs later : list (Ctx * Call)) (j : bytes32),
    let s := run keccak256 this txs (constructor deployer) in
    0 < amount (escrows s j) ->
    let r := escrows s j in
    let r' := escrows (run keccak256 this later s) j in
    buyer r' = buyer r /\ provider r' = provider r
    /\ amount r' = amount r /\ createdAt r' = createdAt r.
Proof.
  intros deployer txs later j s Hpos. now apply run_terms_kept.
Qed.

(** X10.  A job identifier is used up by its first record: after any later
    sequence of calls, settlement included, [createEscrow] for that
    identifier still fails and changes nothing, whoever calls it and
    whatever it sends. *)
Theorem job_id_is_never_reused :
  forall (deployer : address) (txs later : list (Ctx * Call)) (j : bytes32),
    let s := run keccak256 this txs (constructor deployer) in
    0 < amount (escrows s j) ->
    forall (c : Ctx) (v : uint256) (p : address),
      let s' := run keccak256 this later s in
      exists e, transact keccak256 this c (CreateEscrow v j p) s' = (s', Failed e).
Proof.
  intros deployer txs later j s Hpos c v p s'.
  destruct (run_terms_kept later s j Hpos) as [_ [_ [Ha _]]].
  fold s' in Ha.
  assert (Hne : (amount (escrows s' j) =? 0) = false)
    by (apply N.eqb_neq; lia).
  clearbody s'. clear Ha. unfold_contract. cbn.
  repeat (split_if; cbn); try congruence; eexists; reflexivity.
Qed.

(** *** Administration *)

Lemma onlyOwner_refuses (c : Ctx) (f : Call) (s : State) :
  is_owner_call f = true ->
  msg_sender c <> owner s ->
  transact keccak256 this c f s = (s, Failed (Error "Only owner")).
Proof.
  intros Hf Hno. apply N.eqb_neq in Hno.
  destruct f; try discriminate; unfold_contract; cbn; now rewrite Hno.
Qed.

(** X11.  [setVerifier], [transferOwnership] and [emergencyWithdraw] are
    refused with "Only owner" (an [Unauthorized] error) to every caller but
    the owner, and the refused call changes nothing. *)
Theorem owner_calls_refuse_others :
  forall (c : Ctx) (f : Call) (s : State),
    is_owner_call f = true ->
    msg_sender c <> owner s ->
    rejected Unauthorized s (transact keccak256 this c f s).
Proof.
  intros c f s Hf Hno. exists (Error "Only owner").
  split; [now apply onlyOwner_refuses | reflexivity].
Qed.

Lemma atomic_owner_verifier (re : list (Ctx * Call) -> State -> State)
    (c : Ctx) (f : Call) (s : State) :
  (forall j p i, f <> ReleaseWithProof j p i) ->
  let s' := fst (transact_with keccak256 this re c f s) in
  (owner s' <> owner s ->
   msg_sender c = owner s /\ f = TransferOwnership (owner s') /\ owner s' <> 0)
  /\ (verifierContract s' <> verifierContract s ->
      msg_sender c = owner s /\ f = SetVerifier (verifierContract s')).
Proof.
  intros Hf.
  destruct f as [v jobId p | jobId h | jobId proof inputs | jobId reason
                | v | o | | v];
    try (exfalso; now apply (Hf jobId proof inputs));
    unfold_contract; cbn;
    try (destruct (escrows s jobId) as [b p' a t rel ref ph] eqn:Hr);
    repeat (split_if; cbn; rewrite ?upd_same, ?Hr; cbn);
    (split; intros Hch; try (exfalso; apply Hch; reflexivity));
    finish; auto.
Qed.

Lemma resumed_admin (c : Ctx) (jobId : bytes32) (proof : bytes) (s s' : State) :
  releaseWithProof_after_verifier keccak256 this c jobId proof s = Ok tt s' ->
  owner s' = owner s /\ verifierContract s' = verifierContract s.
Proof.
  unfold_contract.
  destruct (escrows s jobId) as [b p a t rel ref ph] eqn:Hr.
  crunch Hr; intros Ht; inversion Ht; subst; clear Ht; split; reflexivity.
Qed.

(** [releaseWithProof] writes neither the owner nor the verifier. *)
Lemma releaseWithProof_admin (re : list (Ctx * Call) -> State -> State)
    (c : Ctx) (jobId : bytes32) (proof : bytes) (inputs : list uint256)
    (s : State) :
  let s' := fst (transact_with keccak256 this re c
                   (ReleaseWithProof jobId proof inputs) s) in
  let s1 := re (verifier_calls c (verifierContract s) proof inputs) s in
  s' = s
  \/ (owner s' = owner s1 /\ verifierContract s' = verifierContract s1).
Proof.
  intros s' s1.
  destruct (releaseWithProof_result re c jobId proof inputs s)
    as [H | [_ Hres]]; [now left |].
  right. now apply (resumed_admin c jobId proof).
Qed.

(** X12.  The owner and the verifier address change in no other way than
    by the owner's own call.  If a call other than [releaseWithProof] leaves
    a different owner it was [transferOwnership] to that (nonzero) address
    sent by the owner, and if it leaves a different verifier it was
    [setVerifier] with that address sent by the owner.  [releaseWithProof]
    writes neither: after it the two are as before, or as the calls of the
    verifier into the ledger have left them, and these are calls of which
    the same holds. *)
Theorem owner_and_verifier_change_only_by_owner :
  forall (c : Ctx) (f : Call) (s : State),
    let s' := fst (transact keccak256 this c f s) in
    ((forall j p i, f <> ReleaseWithProof j p i) ->
     (owner s' <> owner s ->
      msg_sender c = owner s /\ f = TransferOwnership (owner s')
      /\ owner s' <> 0)
     /\ (verifierContract s' <> verifierContract s ->
         msg_sender c = owner s /\ f = SetVerifier (verifierContract s')))
    /\ (forall j p i, f = ReleaseWithProof j p i ->
        let s1 := after_verifier keccak256 this c p i s in
        (owner s' = owner s /\ verifierContract s' = verifierContract s)
        \/ (owner s' = owner s1 /\ verifierContract s' = verifierContract s1)).
Proof.
  intros c f s s'. subst s'. split.
  - intros Hf. now apply atomic_owner_verifier.
  - intros j p i -> s1. unfold transact.
    destruct (releaseWithProof_admin (reenter keccak256 this REENTRY_DEPTH)
                c j p i s) as [-> | H]; [left; auto | right; exact H].
Qed.

Lemma frame_owner_nonzero (re : list (Ctx * Call) -> State -> State)
    (c : Ctx) (f : Call) (s : State) :
  (forall calls s0, owner s0 <> 0 -> owner (re calls s0) <> 0) ->
  owner s <> 0 ->
  owner (fst (transact_with keccak256 this re c f s)) <> 0.
Proof.
  intros Hre Hs.
  destruct f as [v jobId p | jobId h | jobId proof inputs | jobId reason
                | v | o | | v].
  3: { destruct (releaseWithProof_admin re c jobId proof inputs s)
         as [-> | [-> _]]; auto. }
  all: match goal with
       | |- owner (fst (transact_with _ _ _ _ ?f _)) <> 0 =>
           destruct (N.eq_dec (owner (fst (transact_with keccak256 this re c f s)))
                              (owner s)) as [-> | Hch]; [exact Hs |];
           apply (atomic_owner_verifier re c f s); [discriminate | exact Hch]
       end.
Qed.

(** X13.  When the deployer is not the zero address, the owner is never the
    zero address, whatever calls follow. *)
Theorem owner_is_never_zero :
  forall (deployer : address) (txs : list (Ctx * Call)),
    deployer <> 0 ->
    owner (run keccak256 this txs (constructor deployer)) <> 0.
Proof.
  intros deployer txs Hd.
  apply (run_related (fun s s' => owner s <> 0 -> owner s' <> 0)); auto.
  intros re c f s _ Hre. now apply frame_owner_nonzero.
Qed.

(** X14.  [transferOwnership] sent by the owner: the zero address is
    refused with "Invalid address"; any other address becomes the owner and
    nothing else changes.  After the hand-over the former owner (when it is
    another address) is refused by every owner-only function, and the new
    owner is the one whose calls pass: its [setVerifier] succeeds. *)
Theorem transferOwnership_hand_over :
  forall (c : Ctx) (newOwner : address) (s : State),
    msg_sender c = owner s ->
    (newOwner = 0 ->
     transact keccak256 this c (TransferOwnership newOwner) s =
       (s, Failed (Error "Invalid address")))
    /\ (newOwner <> 0 ->
        let s' := set_owner newOwner s in
        transact keccak256 this c (TransferOwnership newOwner) s = (s', Success)
        /\ (newOwner <> owner s ->
            forall f, is_owner_call f = true ->
              transact keccak256 this c f s' = (s', Failed (Error "Only owner")))
        /\ (forall v, snd (transact keccak256 this (with_sender newOwner c)
                              (SetVerifier v) s') = Success)).
Proof.
  intros c newOwner s Ho. split.
  - intros ->. unfold_contract. cbn. now rewrite Ho, N.eqb_refl.
  - intros Hnz s'. split; [| split].
    + unfold_contract. cbn. rewrite Ho, N.eqb_refl. cbn.
      apply N.eqb_neq in Hnz. now rewrite Hnz.
    + intros Hne f Hf. apply onlyOwner_refuses; [exact Hf |].
      subst s'. cbn. congruence.
    + intros v. unfold_contract. subst s'. cbn. now rewrite N.eqb_refl.
Qed.

(** X15.  [setVerifier] sent by the owner always succeeds: it stores the
    address, emits [VerifierUpdated] with the old and the new address and
    changes nothing else.  The zero address is accepted too, and it switches
    [releaseWithProof] off again: on a pending job the call is then refused
    with "Verifier not set", whoever sends it. *)
Theorem setVerifier_effect :
  forall (c : Ctx) (v : address) (s : State),
    msg_sender c = owner s ->
    transact keccak256 this c (SetVerifier v) s =
      (add_log (VerifierUpdated (verifierContract s) v)
               (set_verifierContract v s), Success)
    /\ (v = 0 ->
        forall (c' : Ctx) (jobId : bytes32) (proof : bytes)
               (inputs : list uint256),
          isPending s jobId = true ->
          let s' := fst (transact keccak256 this c (SetVerifier v) s) in
          transact keccak256 this c' (ReleaseWithProof jobId proof inputs) s' =
            (s', Failed (Error "Verifier not set"))).
Proof.
  intros c v s Ho.
  assert (Hset : transact keccak256 this c (SetVerifier v) s =
                 (add_log (VerifierUpdated (verifierContract s) v)
                          (set_verifierContract v s), Success)).
  { unfold_contract. cbn. now rewrite Ho, N.eqb_refl. }
  split; [exact Hset |].
  intros -> c' jobId proof inputs Hp s'. subst s'. rewrite Hset. cbn [fst].
  apply releaseWithProof_no_verifier; [exact Hp | reflexivity].
Qed.

(** X16.  The administrative calls and [receive()] never touch escrow
    data: after [setVerifier], [transferOwnership], [emergencyWithdraw] or a
    plain payment, successful or not, every record, every locked balance and
    every earnings total is what it was. *)
Theorem other_calls_leave_escrow_data :
  forall (c : Ctx) (f : Call) (s : State),
    is_escrow_call f = false ->
    let s' := fst (transact keccak256 this c f s) in
    (forall j, escrows s' j = escrows s j)
    /\ (forall a, lockedBalance s' a = lockedBalance s a)
    /\ (forall a, providerEarnings s' a = providerEarnings s a).
Proof.
  intros c f s Hf.
  destruct f; try discriminate; unfold_contract; cbn;
    repeat (split_if; cbn); repeat split; reflexivity.
Qed.

(** X17.  [emergencyWithdraw] sent by the owner: when the owner's account
    accepts the payment the call succeeds and the ledger is left with a zero
    balance; when it refuses, the call fails with "Transfer failed" and the
    balance stays.  (An owner that is the ledger's own address receives the
    payment in [receive()], and the balance stays as well.) *)
Theorem emergencyWithdraw_outcomes :
  forall (c : Ctx) (s : State),
    msg_sender c = owner s ->
    let out := transact keccak256 this c EmergencyWithdraw s in
    (owner s <> this -> accepts_payment c (owner s) (balance s) = true ->
     out = (set_balance 0 s, Success))
    /\ (owner s <> this -> accepts_payment c (owner s) (balance s) = false ->
        out = (s, Failed (Error "Transfer failed")))
    /\ (owner s = this -> out = (s, Success)).
Proof.
  intros c s Ho out. subst out. unfold_contract. cbn.
  rewrite Ho, N.eqb_refl. cbn. rewrite N.ltb_irrefl.
  split; [| split].
  - intros Hthis Hacc. apply N.eqb_neq in Hthis. rewrite Hthis, Hacc. cbn.
    now rewrite N.sub_diag.
  - intros Hthis Hacc. apply N.eqb_neq in Hthis. now rewrite Hthis, Hacc.
  - intros Hthis. apply N.eqb_eq in Hthis. now rewrite Hthis.
Qed.

(** *** Settlement paths *)

(** X18.  On a job that has no record, [releaseEscrow], [releaseWithProof]
    and [refundEscrow] are all refused with "Escrow does not exist" (the
    [NotFound] error), whoever calls, and change nothing. *)
Theorem settlement_of_missing_job :
  forall (c : Ctx) (jobId : bytes32) (s : State),
    amount (escrows s jobId) = 0 ->
    (forall h, rejected NotFound s
                 (transact keccak256 this c (ReleaseEscrow jobId h) s))
    /\ (forall proof inputs,
          rejected NotFound s
            (transact keccak256 this c (ReleaseWithProof jobId proof inputs) s))
    /\ (forall reason,
          rejected NotFound s
            (transact keccak256 this c (RefundEscrow jobId reason) s)).
Proof.
  intros c jobId s Hz. unfold rejected.
  repeat split; intros; exists (Error "Escrow does not exist");
    (split; [| reflexivity]); unfold_contract; cbn; now rewrite Hz.
Qed.

Lemma releaseEscrow_unauthorized (c : Ctx) (jobId h : bytes32) (s : State) :
  isPending s jobId = true ->
  msg_sender c <> buyer (escrows s jobId) ->
  msg_sender c <> owner s ->
  transact keccak256 this c (ReleaseEscrow jobId h) s =
    (s, Failed (Error "Not authorized")).
Proof.
  unfold isPending. unfold_contract.
  destruct (escrows s jobId) as [b p a t rel ref ph] eqn:Hr.
  intros Hp Hb Ho. eqb_facts. subst.
  crunch Hr; finish.
Qed.

(** X19.  [releaseEscrow] on a pending record: a caller who is neither the
    buyer nor the owner is refused with "Not authorized"; the call has no
    time gate, its outcome is the same at every timestamp; and sent by the
    buyer or the owner it succeeds exactly when the buyer's locked balance
    covers the amount, the provider's earnings stay within 256 bits and the
    payout to the provider can be delivered. *)
Theorem releaseEscrow_authorization :
  forall (c : Ctx) (jobId h : bytes32) (s : State),
    isPending s jobId = true ->
    let r := escrows s jobId in
    let out := transact keccak256 this c (ReleaseEscrow jobId h) s in
    (msg_sender c <> buyer r -> msg_sender c <> owner s ->
     rejected Unauthorized s out)
    /\ (forall t, transact keccak256 this (with_timestamp t c)
                    (ReleaseEscrow jobId h) s = out)
    /\ (msg_sender c = buyer r \/ msg_sender c = owner s ->
        (snd out = Success <->
         amount r <= lockedBalance s (buyer r)
         /\ providerEarnings s (provider r) + amount r <= MAX_UINT256
         /\ deliverable this c (provider r) (amount r) s)).
Proof.
  intros c jobId h s Hp r out. subst r out. split; [| split].
  - intros Hb Ho. exists (Error "Not authorized").
    split; [now apply releaseEscrow_unauthorized | reflexivity].
  - intros t. reflexivity.
  - revert Hp. unfold isPending, deliverable. unfold_contract.
    destruct (escrows s jobId) as [b p a t rel ref ph] eqn:Hr.
    intros Hp Hauth. eqb_facts. subst.
    crunch Hr; finish; cbn; (split; [try discriminate; intros _ | intros; try reflexivity]);
      finish; try (repeat split; auto; lia).
Qed.

Lemma refundEscrow_success (c : Ctx) (jobId : bytes32) (reason : string)
    (s s' : State) :
  transact keccak256 this c (RefundEscrow jobId reason) s = (s', Success) ->
  isRefunded (escrows s' jobId) = true
  /\ lockedBalance s' (buyer (escrows s jobId)) + amount (escrows s jobId) =
       lockedBalance s (buyer (escrows s jobId)).
Proof.
  unfold_contract.
  destruct (escrows s jobId) as [b p a t rel ref ph] eqn:Hr. cbn.
  crunch Hr; intros Ht; inversion Ht; subst; clear Ht; finish; cbn;
    rewrite ?upd_same; cbn; split; try reflexivity; lia.
Qed.

(** X20.  The buyer's own refund of a pending record at a time after
    [createdAt + 24 hours] (when that sum fits in 256 bits) succeeds exactly
    when the buyer's locked balance covers the amount and the payout can be
    delivered; the record then becomes refunded and the buyer's locked
    balance drops by the amount. *)
Theorem refundEscrow_after_deadline :
  forall (c : Ctx) (jobId : bytes32) (reason : string) (s : State),
    isPending s jobId = true ->
    let r := escrows s jobId in
    msg_sender c = buyer r ->
    createdAt r + HOURS_24 <= MAX_UINT256 ->
    createdAt r + HOURS_24 < block_timestamp c ->
    let out := transact keccak256 this c (RefundEscrow jobId reason) s in
    (snd out = Success <->
     amount r <= lockedBalance s (buyer r)
     /\ deliverable this c (buyer r) (amount r) s)
    /\ (snd out = Success ->
        isRefunded (escrows (fst out) jobId) = true
        /\ lockedBalance (fst out) (buyer r) + amount r =
             lockedBalance s (buyer r)).
Proof.
  intros c jobId reason s Hp r Hb Hovf Hlate out. subst r out. split.
  - revert Hp Hb Hovf Hlate. unfold isPending, deliverable. unfold_contract.
    destruct (escrows s jobId) as [b p a t rel ref ph] eqn:Hr.
    intros Hp Hb Hovf Hlate. eqb_facts. subst.
    crunch Hr; finish; cbn; (split; [try discriminate; intros _ | intros; try reflexivity]);
      finish; try (repeat split; auto; lia).
  - intros Hok.
    destruct (transact keccak256 this c (RefundEscrow jobId reason) s)
      as [s' rc] eqn:Hout. cbn [fst snd] in *. subst rc.
    now apply (refundEscrow_success c jobId reason).
Qed.

(** X21.  The two release paths agree.  On a pending record, sent by the
    buyer or the owner while a verifier is configured, the call to it
    succeeds and the verifier makes no call into the ledger,
    [releaseWithProof] with [proof] gives exactly the receipt and the state
    of [releaseEscrow] with the hash [keccak256 proof]. *)
Theorem release_paths_agree :
  forall (c : Ctx) (jobId : bytes32) (proof : bytes) (inputs : list uint256)
         (s : State),
    isPending s jobId = true ->
    msg_sender c = buyer (escrows s jobId) \/ msg_sender c = owner s ->
    verifierContract s <> 0 ->
    fst (call_verify c (verifierContract s) proof inputs) = true ->
    verifier_calls c (verifierContract s) proof inputs = [] ->
    transact keccak256 this c (ReleaseWithProof jobId proof inputs) s =
    transact keccak256 this c (ReleaseEscrow jobId (keccak256 proof)) s.
Proof.
  intros c jobId proof inputs s Hp Hauth Hv Hcall Hq.
  unfold transact at 1.
  rewrite (releaseWithProof_resumes _ c jobId proof inputs s Hp Hv Hcall).
  rewrite Hq, reenter_nil.
  revert Hp Hauth. unfold isPending. unfold_contract.
  destruct (escrows s jobId) as [b p a t rel ref ph] eqn:Hr.
  intros Hp Hauth. eqb_facts. subst.
  crunch Hr; finish; rewrite ?upd_same; reflexivity.
Qed.

(** X22.  Earnings never go down: across any sequence of calls from any
    reachable state, the earnings total of every address stays or grows. *)
Theorem providerEarnings_never_decrease :
  forall (deployer : address) (txs later : list (Ctx * Call)) (p : address),
    let s := run keccak256 this txs (constructor deployer) in
    providerEarnings s p <= providerEarnings (run keccak256 this later s) p.
Proof.
  intros deployer txs later p s.
  apply (run_changes
           (fun s s' => providerEarnings s p <= providerEarnings s' p)).
  - intros s0. lia.
  - intros s1 s2 s3 H12 H23. lia.
  - intros f s0 s' Heff.
    destruct Heff as
      [_ _ He _ _ | j0 r _ _ _ _ _ _ _ _ _ He _ _
      | j0 h _ _ _ _ He _ _ _ | j0 reason _ _ _ _ He _ _ _];
      rewrite He; try lia.
    destruct (p =? provider (escrows s0 j0)); lia.
  - intros j h s0 s' Hl. rewrite (lr_earnings _ _ _ _ Hl).
    destruct (p =? provider (escrows s0 j)); lia.
Qed.

Lemma releaseWithProof_success (re : list (Ctx * Call) -> State -> State)
    (c : Ctx) (jobId : bytes32) (proof : bytes) (inputs : list uint256)
    (s s' : State) :
  transact_with keccak256 this re c (ReleaseWithProof jobId proof inputs) s =
    (s', Success) ->
  releaseWithProof_after_verifier keccak256 this c jobId proof
    (re (verifier_calls c (verifierContract s) proof inputs) s) = Ok tt s'.
Proof.
  intros Hout.
  destruct (isPending s jobId) eqn:Hp.
  2: { destruct (releaseWithProof_not_pending re c jobId proof inputs s Hp)
         as [e He]. congruence. }
  destruct (N.eq_dec (verifierContract s) 0) as [Hv | Hv].
  { rewrite releaseWithProof_no_verifier_with in Hout by assumption.
    discriminate. }
  destruct (fst (call_verify c (verifierContract s) proof inputs)) eqn:Hcall.
  2: { rewrite releaseWithProof_call_failed_with in Hout by assumption.
       discriminate. }
  rewrite (releaseWithProof_resumes re c jobId proof inputs s Hp Hv Hcall)
    in Hout.
  destruct (releaseWithProof_after_verifier _ _ _ _ _ _) as [[] s2 | e];
    [congruence | discriminate].
Qed.

Lemma resumed_payment (c : Ctx) (jobId : bytes32) (proof : bytes) (s s' : State) :
  releaseWithProof_after_verifier keccak256 this c jobId proof s = Ok tt s' ->
  let r := escrows s jobId in
  balance s' = (if provider r =? this then balance s else balance s - amount r)
  /\ amount r <= balance s
  /\ log s' = EscrowReleased jobId (provider r) (amount r) (keccak256 proof)
                :: log s.
Proof.
  unfold_contract.
  destruct (escrows s jobId) as [b p a t rel ref ph] eqn:Hr.
  cbn [buyer provider amount].
  crunch Hr; intros Ht; inversion Ht; subst; clear Ht; finish; cbn;
    rewrite ?N.eqb_refl;
    try match goal with
    | H : ?x <> ?y |- context [?x =? ?y] =>
        apply N.eqb_neq in H; rewrite H
    end;
    repeat split; try reflexivity; try lia.
Qed.

(** X23.  A successful settlement moves exactly the amount of the record:
    after a successful [releaseEscrow] or [refundEscrow] the ledger's
    balance is lower by the amount, unless the payee is the ledger's own
    address, in which case the balance stays; and exactly one event,
    [EscrowReleased] or [EscrowRefunded], is added to the log.  For
    [releaseWithProof] the same holds from the state the verifier has left:
    the amount is paid and the event is added on top of whatever the
    verifier's own calls have paid and logged. *)
Theorem settlement_pays_the_amount :
  forall (c : Ctx) (jobId : bytes32) (s s' : State),
    let r := escrows s jobId in
    (forall h,
       transact keccak256 this c (ReleaseEscrow jobId h) s = (s', Success) ->
       balance s' = (if provider r =? this then balance s
                     else balance s - amount r)
       /\ amount r <= balance s
       /\ log s' = EscrowReleased jobId (provider r) (amount r) h :: log s)
    /\ (forall proof inputs,
          transact keccak256 this c (ReleaseWithProof jobId proof inputs) s =
            (s', Success) ->
          let s1 := after_verifier keccak256 this c proof inputs s in
          let r1 := escrows s1 jobId in
          balance s' = (if provider r1 =? this then balance s1
                        else balance s1 - amount r1)
          /\ amount r1 <= balance s1
          /\ log s' = EscrowReleased jobId (provider r1) (amount r1)
                        (keccak256 proof) :: log s1)
    /\ (forall reason,
          transact keccak256 this c (RefundEscrow jobId reason) s =
            (s', Success) ->
          balance s' = (if buyer r =? this then balance s
                        else balance s - amount r)
          /\ amount r <= balance s
          /\ log s' = EscrowRefunded jobId (buyer r) (amount r) reason :: log s).
Proof.
  intros c jobId s s' r. subst r. split; [| split].
  2: { intros proof inputs Hout s1 r1.
       apply (resumed_payment c jobId proof).
       now apply releaseWithProof_success in Hout. }
  all: unfold_contract;
    destruct (escrows s jobId) as [b p a t rel ref ph] eqn:Hr;
    cbn [buyer provider amount]; intros;
    match goal with H : _ = (_, Success) |- _ => revert H end;
    crunch Hr; intros Ht; inversion Ht; subst; clear Ht; finish; cbn;
    rewrite ?N.eqb_refl;
    try match goal with
    | H : ?x <> ?y |- context [?x =? ?y] =>
        apply N.eqb_neq in H; rewrite H
    end;
    repeat split; try reflexivity; try lia.
Qed.

(** X24.  As long as no verifier calls back into the ledger, no job is paid
    out twice: in every reachable state the log holds at most one settlement
    event ([EscrowReleased] or [EscrowRefunded]) per job, and the jobs that
    have one are exactly the records with a terminal flag. *)
Theorem each_job_settles_once :
  forall (deployer : address) (txs : list (Ctx * Call)),
    Forall (fun tx => quiet (fst tx)) txs ->
    let s := run keccak256 this txs (constructor deployer) in
    NoDup (settled_jobs s)
    /\ forall j, In j (settled_jobs s) <-> settled (escrows s j) = true.
Proof.
  intros deployer txs Hq s. now apply quiet_settled_once.
Qed.

Lemma resumed_failures (c : Ctx) (jobId : bytes32) (proof : bytes) (s : State)
    (e : Failure) :
  releaseWithProof_after_verifier keccak256 this c jobId proof s = Revert e ->
  e = Panic 17 \/ e = Error "Transfer failed".
Proof.
  unfold_contract.
  destruct (escrows s jobId) as [b p a t rel ref ph] eqn:Hr.
  crunch Hr; intros Ht; inversion Ht; subst; auto.
Qed.

(** X25.  On a pending record with a verifier configured, [releaseWithProof]
    is refused with "Proof verification failed" exactly when the low-level
    call to the verifier fails; the data the verifier returns plays no
    part. *)
Theorem releaseWithProof_verification_gate :
  forall (c : Ctx) (jobId : bytes32) (proof : bytes) (inputs : list uint256)
         (s : State),
    isPending s jobId = true ->
    verifierContract s <> 0 ->
    (rejected VerificationFailed s
       (transact keccak256 this c (ReleaseWithProof jobId proof inputs) s)
     <-> fst (call_verify c (verifierContract s) proof inputs) = false).
Proof.
  intros c jobId proof inputs s Hp Hv. split.
  - intros [f [Hout Hf]].
    destruct (fst (call_verify c (verifierContract s) proof inputs)) eqn:Hcall;
      [| reflexivity].
    exfalso. unfold transact in Hout.
    rewrite (releaseWithProof_resumes _ c jobId proof inputs s Hp Hv Hcall)
      in Hout.
    destruct (releaseWithProof_after_verifier _ _ _ _ _ _) as [[] s2 | e] eqn:Hres;
      [discriminate |].
    inversion Hout; subst f.
    destruct (resumed_failures _ _ _ _ _ Hres) as [-> | ->]; discriminate.
  - intros Hcall. exists (Error "Proof verification failed").
    split; [now apply releaseWithProof_call_failed | reflexivity].
Qed.

(** *** The balance of the ledger *)

Lemma atomic_balance_bound (re : list (Ctx * Call) -> State -> State)
    (c : Ctx) (f : Call) (s : State) :
  (forall j p i, f <> ReleaseWithProof j p i) ->
  balance (fst (transact_with keccak256 this re c f s))
    <= balance s + call_msg_value f.
Proof.
  intros Hf.
  destruct f as [v jobId p | jobId h | jobId proof inputs | jobId reason
                | v | o | | v];
    try (exfalso; now apply (Hf jobId proof inputs));
    unfold_contract; cbn;
    try (destruct (escrows s jobId) as [b p' a t rel ref ph] eqn:Hr);
    repeat (split_if; cbn; rewrite ?upd_same, ?Hr; cbn); lia.
Qed.

Lemma resumed_balance_bound (c : Ctx) (jobId : bytes32) (proof : bytes)
    (s s' : State) :
  releaseWithProof_after_verifier keccak256 this c jobId proof s = Ok tt s' ->
  balance s' <= balance s.
Proof.
  unfold_contract.
  destruct (escrows s jobId) as [b p a t rel ref ph] eqn:Hr.
  crunch Hr; intros Ht; inversion Ht; subst; clear Ht; cbn; lia.
Qed.

(** The balance of the ledger stays a 256-bit word: the calls that are run
    are those the chain can carry, and no function credits the ledger. *)
Lemma reachable_balance_fits (deployer : address) (txs : list (Ctx * Call)) :
  balance (run keccak256 this txs (constructor deployer)) <= MAX_UINT256.
Proof.
  apply (run_related
           (fun s s' => balance s <= MAX_UINT256 -> balance s' <= MAX_UINT256));
    auto.
  - intros re c f s Hsend Hre Hs.
    unfold sendable in Hsend. apply N.leb_le in Hsend.
    destruct f as [v jobId p | jobId h | jobId proof inputs | jobId reason
                  | v | o | | v].
    3: { destruct (releaseWithProof_result re c jobId proof inputs s)
           as [-> | [_ Hres]]; [exact Hs |].
         apply resumed_balance_bound in Hres.
         specialize (Hre (verifier_calls c (verifierContract s) proof inputs)
                         s Hs). lia. }
    all: match goal with
         | |- balance (fst (transact_with _ _ ?re ?c ?f ?s)) <= _ =>
             pose proof (atomic_balance_bound re c f s) as Hb
         end;
         cbn [call_msg_value] in *;
         assert (Hb' := Hb ltac:(discriminate)); lia.
  - cbn. unfold MAX_UINT256. lia.
Qed.

End Properties.

(** ** Worked scenarios *)

(** Scenario A of the specification: create, then release at once. *)
Example scenario_A :
  escrows released 7 = mkEscrow alice bob 10 1000 true false 42
  /\ providerEarnings released bob = 10
  /\ lockedBalance released alice = 0.
Proof. vm_compute. repeat split; reflexivity. Qed.

(** Scenario B: one hour after creation the buyer is told to wait, the
    administrator is not. *)
Example scenario_B :
  exec (paying alice (1000 + 3600)) (RefundEscrow 7 "timeout") funded =
    (funded, Failed (Error "Cannot refund yet"))
  /\ snd (exec (paying admin (1000 + 3600)) (RefundEscrow 7 "timeout") funded) =
       Success
  /\ lockedBalance
       (fst (exec (paying admin (1000 + 3600)) (RefundEscrow 7 "timeout") funded))
       alice = 0.
Proof. vm_compute. repeat split; reflexivity. Qed.

(** Scenario C: a second release is refused and earns the provider nothing
    more. *)
Example scenario_C :
  exec (paying alice 1003) (ReleaseEscrow 7 42) released =
    (released, Failed (Error "Already released"))
  /\ classify (Error "Already released") = Some AlreadySettled
  /\ providerEarnings released bob = 10.
Proof. vm_compute. repeat split; reflexivity. Qed.

(** C1.  The verifier's answer is not read.  With a verifier configured
    whose [verify] returns [false], [releaseWithProof] called by a stranger
    on the pending job 7 does not fail with [VerificationFailed]: it
    succeeds, marks the record released and pays the provider.  (Only a
    verifier call that itself fails leads to [VerificationFailed].) *)
Example releaseWithProof_accepts_false_verdict :
  let s := funded_with_verifier in
  let c := paying mallory 2000 in
  let out := exec c (ReleaseWithProof 7 [x01; x02] [5]) s in
  isPending s 7 = true
  /\ verifierContract s = verifier
  /\ call_verify c verifier [x01; x02] [5] = (true, abi_encode_bool false)
  /\ snd out = Success
  /\ isReleased (escrows (fst out) 7) = true
  /\ isPending (fst out) 7 = false
  /\ providerEarnings (fst out) bob = 10
  /\ lockedBalance (fst out) alice = 0
  /\ balance (fst out) = 0.
Proof. vm_compute. repeat split; reflexivity. Qed.

(** Scenario D, first half: without a verifier the call is rejected. *)
Example scenario_D_no_verifier :
  exec (paying mallory 2000) (ReleaseWithProof 7 [x01; x02] [5]) funded =
    (funded, Failed (Error "Verifier not set")).
Proof.
  apply releaseWithProof_no_verifier; reflexivity.
Qed.

(** C9.  The sweep takes the funds that back a pending record.  After Alice
    funds job 7 with 10 wei, [emergencyWithdraw] by the administrator
    succeeds and empties the ledger while the job is still pending and
    Alice's locked balance is still 10; releasing the job afterwards fails
    because nothing is left to pay the provider. *)
Example emergencyWithdraw_takes_escrowed_funds :
  let s := funded in
  let out := exec (paying admin 1500) EmergencyWithdraw s in
  isPending s 7 = true
  /\ balance s = 10
  /\ snd out = Success
  /\ balance (fst out) = 0
  /\ isPending (fst out) 7 = true
  /\ lockedBalance (fst out) alice = 10
  /\ snd (exec (paying alice 1600) (ReleaseEscrow 7 42) (fst out)) =
       Failed (Error "Transfer failed").
Proof. vm_compute. repeat split; reflexivity. Qed.

(** C8, counterexample.  Bob refuses the payment, [releaseEscrow] by Alice
    fails with "Transfer failed", and afterwards the record is not marked
    settled: it is still pending, with the totals as before. *)
Example failed_transfer_leaves_job_pending :
  let out := exec (refusing alice 1002) (ReleaseEscrow 7 42) funded in
  snd out = Failed (Error "Transfer failed")
  /\ settled (escrows (fst out) 7) = false
  /\ isPending (fst out) 7 = true
  /\ lockedBalance (fst out) alice = 10
  /\ providerEarnings (fst out) bob = 0.
Proof. vm_compute. repeat split; reflexivity. Qed.

(** C3, counterexample.  Alice's locked total stands at [2^255] (the
    ledger itself holds nothing: the administrator has swept it); her next
    [createEscrow], with [2^255] wei, a valid provider and a fresh job
    identifier, does not succeed: the checked [+=] reverts it.  And where
    several of the conditions hold at once the earliest check names the
    error: a zero amount on an existing job is [InvalidAmount], a provider
    equal to the caller on an existing job is [InvalidProvider]. *)
Example createEscrow_locked_total_overflow :
  let s := heavily_locked in
  let out := exec (paying alice 1002) (CreateEscrow (2 ^ 255) 7 bob) s in
  (amount (escrows s 7) = 0
   /\ balance s = 0
   /\ lockedBalance s alice = 2 ^ 255
   /\ sendable (CreateEscrow (2 ^ 255) 7 bob) s = true
   /\ out = (s, Failed (Panic 17)))
  /\ exec (paying mallory 1100) (CreateEscrow 0 7 0) funded =
       (funded, Failed (Error "Must send ETH"))
  /\ exec (paying mallory 1100) (CreateEscrow 5 7 mallory) funded =
       (funded, Failed (Error "Cannot escrow to self")).
Proof. vm_compute. repeat split; reflexivity. Qed.

(** C6, counterexample.  The administrator's refund of a pending job does
    not succeed once the ledger holds too little to pay the buyer (here
    after a sweep), nor when the buyer's account refuses the payment, nor
    when the buyer's locked balance has been used up (here job 8, after
    job 7 was settled twice): the checked subtraction reverts. *)
Example refundEscrow_owner_can_fail :
  let swept := fst (exec (paying admin 1500) EmergencyWithdraw funded) in
  isPending swept 7 = true
  /\ owner swept = admin
  /\ exec (paying admin 1600) (RefundEscrow 7 "stuck") swept =
       (swept, Failed (Error "Transfer failed"))
  /\ exec (refusing admin 1600) (RefundEscrow 7 "stuck") funded =
       (funded, Failed (Error "Transfer failed"))
  /\ isPending twice_settled 8 = true
  /\ owner twice_settled = admin
  /\ exec (paying admin (day_after + 1)) (RefundEscrow 8 "stuck") twice_settled =
       (twice_settled, Failed (Panic 17)).
Proof. vm_compute. repeat split; reflexivity. Qed.

(** C2.  Both flags on one record.  Alice's contract is the buyer of jobs 7
    and 8 and also the configured verifier.  A day after the jobs were
    funded, [releaseWithProof] is called for job 7, which is pending.  The
    function calls the verifier before it marks the record; the verifier
    uses the call to claim the refund of job 7, which succeeds on its own
    terms and sets [isRefunded]; the verifier returns, and the function goes
    on to set [isReleased] on the same record and to pay the provider.  The
    call succeeds: job 7 is released and refunded at once, its 10 wei were
    paid out twice, and job 8, still pending, is left without funds and
    without locked balance, so that it can be neither released nor
    refunded. *)
Example reentrant_release_sets_both_flags :
  let s := two_jobs in
  let out := exec refund_inside (ReleaseWithProof 7 [x01] []) s in
  isPending s 7 = true
  /\ verifierContract s = alice
  /\ verifier_calls refund_inside alice [x01] [] =
       [(paying alice day_after, RefundEscrow 7 "timeout")]
  /\ snd (exec (paying alice day_after) (RefundEscrow 7 "timeout") s) = Success
  /\ out = (twice_settled, Success)
  /\ isReleased (escrows twice_settled 7) = true
  /\ isRefunded (escrows twice_settled 7) = true
  /\ balance s = 20
  /\ balance twice_settled = 0
  /\ providerEarnings twice_settled bob = 10
  /\ lockedBalance twice_settled alice = 0
  /\ isPending twice_settled 8 = true
  /\ exec (paying alice (day_after + 1)) (ReleaseEscrow 8 42) twice_settled =
       (twice_settled, Failed (Panic 17))
  /\ exec (paying alice (2 * day_after)) (RefundEscrow 8 "timeout") twice_settled =
       (twice_settled, Failed (Panic 17)).
Proof. vm_compute. repeat split; reflexivity. Qed.

(** ** Instances of the theorems *)

Lemma createEscrow_outcomes_witness :
  rejected InvalidAmount funded
    (exec (paying mallory 1100) (CreateEscrow 0 8 bob) funded)
  /\ rejected InvalidProvider funded
       (exec (paying mallory 1100) (CreateEscrow 5 8 mallory) funded)
  /\ rejected DuplicateJob funded
       (exec (paying mallory 1100) (CreateEscrow 5 7 bob) funded)
  /\ snd (exec (paying mallory 1100) (CreateEscrow 5 8 bob) funded) = Success.
Proof.
  split; [| split; [| split]].
  - apply (createEscrow_outcomes sample_keccak256 ledger
             (paying mallory 1100) 0 8 bob funded).
    reflexivity.
  - apply (createEscrow_outcomes sample_keccak256 ledger
             (paying mallory 1100) 5 8 mallory funded).
    + discriminate.
    + right. reflexivity.
  - apply (createEscrow_outcomes sample_keccak256 ledger
             (paying mallory 1100) 5 7 bob funded);
      vm_compute; discriminate.
  - apply (createEscrow_outcomes sample_keccak256 ledger
             (paying mallory 1100) 5 8 bob funded);
      vm_compute; solve [discriminate | reflexivity].
Defined.

Lemma releaseEscrow_effect_witness :
  isPending funded 7 = true
  /\ exec (paying alice 1002) (ReleaseEscrow 7 42) funded = (released, Success)
  /\ providerEarnings released bob = providerEarnings funded bob + 10
  /\ lockedBalance released alice + 10 = lockedBalance funded alice
  /\ escrows released 7 = mkEscrow alice bob 10 1000 true false 42.
Proof.
  split; [reflexivity |]. split; [reflexivity |].
  apply (releaseEscrow_effect sample_keccak256 ledger
           (paying alice 1002) 7 42 funded released); reflexivity.
Defined.

Lemma refundEscrow_effect_witness :
  let s' := fst (exec (paying admin 1200) (RefundEscrow 7 "no proof") funded) in
  isPending funded 7 = true
  /\ lockedBalance s' alice + 10 = lockedBalance funded alice
  /\ providerEarnings s' bob = providerEarnings funded bob
  /\ isRefunded (escrows s' 7) = true.
Proof.
  intros s'. split; [reflexivity |].
  destruct (refundEscrow_effect sample_keccak256 ledger
              (paying admin 1200) 7 "no proof" funded s'
              eq_refl eq_refl) as [Hlock [_ [Hearn [Hrec _]]]].
  split; [exact Hlock |]. split; [apply Hearn |].
  rewrite Hrec. reflexivity.
Defined.

Lemma refundEscrow_time_gate_witness :
  rejected TooEarly funded
    (exec (paying alice (1000 + HOURS_24)) (RefundEscrow 7 "slow") funded)
  /\ snd (exec (paying admin 1001) (RefundEscrow 7 "slow") funded) = Success
  /\ exec (paying admin (day_after + 1)) (RefundEscrow 8 "slow") twice_settled =
       (twice_settled, Failed (Panic 17))
  /\ rejected Unauthorized funded
       (exec (paying mallory 999999) (RefundEscrow 7 "slow") funded).
Proof.
  split; [| split; [| split]].
  - apply (refundEscrow_time_gate sample_keccak256 ledger
             (paying alice (1000 + HOURS_24)) 7 "slow" funded);
      vm_compute; solve [discriminate | reflexivity].
  - apply (refundEscrow_time_gate sample_keccak256 ledger
             (paying admin 1001) 7 "slow" funded).
    + reflexivity.
    + vm_compute. discriminate.
    + reflexivity.
    + vm_compute. discriminate.
    + split; [vm_compute; discriminate | right; reflexivity].
  - apply (refundEscrow_time_gate sample_keccak256 ledger
             (paying admin (day_after + 1)) 8 "slow" twice_settled).
    + reflexivity.
    + vm_compute. discriminate.
    + reflexivity.
    + vm_compute. reflexivity.
  - apply (refundEscrow_time_gate sample_keccak256 ledger
             (paying mallory 999999) 7 "slow" funded);
      vm_compute; solve [discriminate | reflexivity].
Defined.

Lemma settled_job_rejects_settlement_witness :
  settled (escrows released 7) = true
  /\ rejected AlreadySettled released
       (exec (paying alice 1003) (ReleaseEscrow 7 42) released)
  /\ rejected AlreadySettled released
       (exec (paying mallory 1003) (ReleaseWithProof 7 [x01] []) released)
  /\ rejected AlreadySettled released
       (exec (paying admin 1003) (RefundEscrow 7 "again") released).
Proof.
  split; [reflexivity |].
  split; [| split].
  - apply (settled_job_rejects_settlement sample_keccak256 ledger admin
             [(paying alice 1000, CreateEscrow 10 7 bob);
              (paying alice 1002, ReleaseEscrow 7 42)] 7 eq_refl
             (paying alice 1003)).
  - apply (settled_job_rejects_settlement sample_keccak256 ledger admin
             [(paying alice 1000, CreateEscrow 10 7 bob);
              (paying alice 1002, ReleaseEscrow 7 42)] 7 eq_refl
             (paying mallory 1003)).
  - apply (settled_job_rejects_settlement sample_keccak256 ledger admin
             [(paying alice 1000, CreateEscrow 10 7 bob);
              (paying alice 1002, ReleaseEscrow 7 42)] 7 eq_refl
             (paying admin 1003)).
Defined.

Lemma transfer_failure_reverts_witness :
  releaseEscrow_until_transfer (refusing alice 1002) 7 42 funded = Ok tt at_transfer
  /\ isReleased (escrows at_transfer 7) = true
  /\ exec (refusing alice 1002) (ReleaseEscrow 7 42) funded =
       (funded, Failed (Error "Transfer failed"))
  /\ isPending funded 7 = true.
Proof.
  split; [reflexivity |].
  destruct (transfer_failure_reverts sample_keccak256 ledger
              (refusing alice 1002) 7 funded at_transfer) as [Hrel _].
  destruct (Hrel 42 eq_refl eq_refl) as [[Hflag _] [Hout Hpend]].
  split; [exact Hflag |]. split; [exact Hout | exact Hpend].
Defined.

Lemma releaseWithProof_any_caller_witness :
  exec (paying mallory 2000) (ReleaseWithProof 7 [x01; x02] [5])
       funded_with_verifier =
  exec (paying alice 2000) (ReleaseWithProof 7 [x01; x02] [5])
       funded_with_verifier
  /\ snd (exec (paying mallory 2000) (ReleaseWithProof 7 [x01; x02] [5])
            funded_with_verifier) = Success.
Proof.
  split.
  - apply (releaseWithProof_any_caller sample_keccak256 ledger
             (paying admin 2000) 7 [x01; x02] [5] funded_with_verifier).
  - apply (releaseWithProof_any_caller sample_keccak256 ledger
             (paying mallory 2000) 7 [x01; x02] [5] funded_with_verifier).
    + reflexivity.
    + vm_compute. discriminate.
    + vm_compute. discriminate.
    + vm_compute. discriminate.
    + reflexivity.
    + vm_compute. discriminate.
    + vm_compute. discriminate.
    + split; [vm_compute; discriminate | right; reflexivity].
Defined.

(** ** Instances of the further properties *)

Lemma lockedBalance_is_pending_total_witness :
  lockedBalance funded_with_verifier alice =
  sum_over (locked_share funded_with_verifier alice)
           (created_jobs funded_with_verifier).
Proof.
  apply (lockedBalance_is_pending_total sample_keccak256 ledger admin
           [(paying alice 1000, CreateEscrow 10 7 bob);
            (paying admin 1001, SetVerifier verifier)] alice).
  repeat constructor; intros v proof inputs; reflexivity.
Defined.

Lemma providerEarnings_is_released_total_witness :
  providerEarnings released bob =
  sum_over (earned_share released bob) (created_jobs released).
Proof.
  apply (providerEarnings_is_released_total sample_keccak256 ledger admin
           [(paying alice 1000, CreateEscrow 10 7 bob);
            (paying alice 1002, ReleaseEscrow 7 42)] bob).
  repeat constructor; intros v proof inputs; reflexivity.
Defined.

Lemma records_have_their_events_witness :
  In (EscrowCreated 7 alice bob 10) (log released)
  /\ In (EscrowReleased 7 bob 10 42) (log released)
  /\ exists reason, In (EscrowRefunded 7 alice 10 reason) (log refunded).
Proof.
  split; [| split].
  - apply (records_have_their_events sample_keccak256 ledger admin
             [(paying alice 1000, CreateEscrow 10 7 bob);
              (paying alice 1002, ReleaseEscrow 7 42)] 7).
    reflexivity.
  - apply (records_have_their_events sample_keccak256 ledger admin
             [(paying alice 1000, CreateEscrow 10 7 bob);
              (paying alice 1002, ReleaseEscrow 7 42)] 7).
    reflexivity.
  - apply (records_have_their_events sample_keccak256 ledger admin
             [(paying alice 1000, CreateEscrow 10 7 bob);
              (paying admin 1002, RefundEscrow 7 "no proof")] 7).
    reflexivity.
Defined.

Lemma ledger_without_sweep_is_solvent_witness :
  isPending funded_with_verifier 7 = true
  /\ amount (escrows funded_with_verifier 7) <= balance funded_with_verifier.
Proof.
  split; [reflexivity |].
  apply (ledger_without_sweep_is_solvent sample_keccak256 ledger admin
           [(paying alice 1000, CreateEscrow 10 7 bob);
            (paying admin 1001, SetVerifier verifier)]).
  - repeat constructor; intros v proof inputs; reflexivity.
  - reflexivity.
Defined.

Lemma unknown_job_reads_zero_witness :
  getEscrow funded 99 = zero_record /\ isPending funded 99 = false.
Proof.
  apply (unknown_job_reads_zero sample_keccak256 ledger admin
           [(paying alice 1000, CreateEscrow 10 7 bob)] 99).
  vm_compute. intros [H | []]. discriminate H.
Defined.

Lemma existing_record_parties_witness :
  0 < amount (escrows funded 7)
  /\ provider (escrows funded 7) <> 0
  /\ provider (escrows funded 7) <> buyer (escrows funded 7).
Proof.
  split; [reflexivity |].
  apply (existing_record_parties sample_keccak256 ledger admin
           [(paying alice 1000, CreateEscrow 10 7 bob)] 7).
  reflexivity.
Defined.

Lemma proofHash_only_on_release_witness :
  isRefunded (escrows refunded 7) = true
  /\ proofHash (escrows refunded 7) = 0.
Proof.
  split; [reflexivity |].
  apply (proofHash_only_on_release sample_keccak256 ledger admin
           [(paying alice 1000, CreateEscrow 10 7 bob);
            (paying admin 1002, RefundEscrow 7 "no proof")] 7).
  reflexivity.
Defined.

Lemma record_terms_are_fixed_witness :
  let later := [(paying alice 1002, ReleaseEscrow 7 42);
                (paying mallory 1003, CreateEscrow 3 7 alice)] in
  buyer (escrows (run sample_keccak256 ledger later funded) 7) = alice
  /\ amount (escrows (run sample_keccak256 ledger later funded) 7) = 10.
Proof.
  intros later.
  destruct (record_terms_are_fixed sample_keccak256 ledger admin
              [(paying alice 1000, CreateEscrow 10 7 bob)] later 7 eq_refl)
    as [Hb [_ [Ha _]]].
  split; [exact Hb | exact Ha].
Defined.

Lemma job_id_is_never_reused_witness :
  exists e,
    exec (paying mallory 1004) (CreateEscrow 3 7 bob)
         (run sample_keccak256 ledger
              [(paying admin 1002, RefundEscrow 7 "no proof")] funded) =
    (run sample_keccak256 ledger
         [(paying admin 1002, RefundEscrow 7 "no proof")] funded, Failed e).
Proof.
  apply (job_id_is_never_reused sample_keccak256 ledger admin
           [(paying alice 1000, CreateEscrow 10 7 bob)]
           [(paying admin 1002, RefundEscrow 7 "no proof")] 7 eq_refl
           (paying mallory 1004) 3 bob).
Defined.

Lemma owner_calls_refuse_others_witness :
  rejected Unauthorized funded (exec (paying mallory 1100) EmergencyWithdraw funded)
  /\ rejected Unauthorized funded
       (exec (paying alice 1100) (SetVerifier verifier) funded).
Proof.
  split.
  - apply (owner_calls_refuse_others sample_keccak256 ledger
             (paying mallory 1100) EmergencyWithdraw funded);
      [reflexivity | (vm_compute; discriminate)].
  - apply (owner_calls_refuse_others sample_keccak256 ledger
             (paying alice 1100) (SetVerifier verifier) funded);
      [reflexivity | (vm_compute; discriminate)].
Defined.

Lemma owner_and_verifier_change_only_by_owner_witness :
  (owner (fst (exec (paying admin 1003) (TransferOwnership alice) funded))
     <> owner funded
   /\ msg_sender (paying admin 1003) = owner funded)
  /\ owner (fst (exec refund_inside (ReleaseWithProof 7 [x01] []) two_jobs)) =
       owner two_jobs.
Proof.
  split.
  - split; [vm_compute; discriminate |].
    destruct (owner_and_verifier_change_only_by_owner sample_keccak256 ledger
                (paying admin 1003) (TransferOwnership alice) funded)
      as [Hatomic _].
    destruct Hatomic as [Hown _]; [discriminate |].
    destruct Hown as [Hsender _]; [vm_compute; discriminate | exact Hsender].
  - destruct (owner_and_verifier_change_only_by_owner sample_keccak256 ledger
                refund_inside (ReleaseWithProof 7 [x01] []) two_jobs)
      as [_ Hproof].
    destruct (Hproof 7 [x01] [] eq_refl) as [[Hown _] | [Hown _]];
      [exact Hown |].
    unfold exec. rewrite Hown. vm_compute. reflexivity.
Defined.

Lemma owner_is_never_zero_witness :
  owner handed_over = alice /\ owner handed_over <> 0.
Proof.
  split; [reflexivity |].
  apply (owner_is_never_zero sample_keccak256 ledger admin
           [(paying alice 1000, CreateEscrow 10 7 bob);
            (paying admin 1003, TransferOwnership alice)]).
  (vm_compute; discriminate).
Defined.

Lemma transferOwnership_hand_over_witness :
  exec (paying admin 1003) (TransferOwnership 0) funded =
    (funded, Failed (Error "Invalid address"))
  /\ exec (paying admin 1003) (TransferOwnership alice) funded =
       (set_owner alice funded, Success)
  /\ exec (paying admin 1003) EmergencyWithdraw (set_owner alice funded) =
       (set_owner alice funded, Failed (Error "Only owner")).
Proof.
  split; [| split].
  - apply (transferOwnership_hand_over sample_keccak256 ledger
             (paying admin 1003) 0 funded); reflexivity.
  - apply (transferOwnership_hand_over sample_keccak256 ledger
             (paying admin 1003) alice funded);
      [reflexivity | (vm_compute; discriminate)].
  - apply (transferOwnership_hand_over sample_keccak256 ledger
             (paying admin 1003) alice funded);
      [reflexivity | (vm_compute; discriminate) | (vm_compute; discriminate) | reflexivity].
Defined.

Lemma setVerifier_effect_witness :
  verifierContract (fst (exec (paying admin 1001) (SetVerifier verifier) funded))
    = verifier
  /\ exec (paying mallory 2000) (ReleaseWithProof 7 [x01] [])
          (fst (exec (paying admin 1005) (SetVerifier 0) funded_with_verifier)) =
     (fst (exec (paying admin 1005) (SetVerifier 0) funded_with_verifier),
      Failed (Error "Verifier not set")).
Proof.
  split.
  - destruct (setVerifier_effect sample_keccak256 ledger
                (paying admin 1001) verifier funded eq_refl) as [Hset _].
    unfold exec. rewrite Hset. reflexivity.
  - apply (setVerifier_effect sample_keccak256 ledger
             (paying admin 1005) 0 funded_with_verifier);
      reflexivity.
Defined.

Lemma other_calls_leave_escrow_data_witness :
  escrows (fst (exec (paying admin 1500) EmergencyWithdraw funded)) 7 =
    escrows funded 7
  /\ lockedBalance (fst (exec (paying admin 1500) EmergencyWithdraw funded)) alice =
       lockedBalance funded alice.
Proof.
  destruct (other_calls_leave_escrow_data sample_keccak256 ledger
              (paying admin 1500) EmergencyWithdraw funded eq_refl)
    as [Hrec [Hlock _]].
  split; [apply Hrec | apply Hlock].
Defined.

Lemma emergencyWithdraw_outcomes_witness :
  exec (paying admin 1500) EmergencyWithdraw funded =
    (set_balance 0 funded, Success)
  /\ exec (refusing admin 1500) EmergencyWithdraw funded =
       (funded, Failed (Error "Transfer failed")).
Proof.
  split.
  - apply (emergencyWithdraw_outcomes sample_keccak256 ledger
             (paying admin 1500) funded);
      [reflexivity | (vm_compute; discriminate) | reflexivity].
  - apply (emergencyWithdraw_outcomes sample_keccak256 ledger
             (refusing admin 1500) funded);
      [reflexivity | (vm_compute; discriminate) | reflexivity].
Defined.

Lemma settlement_of_missing_job_witness :
  rejected NotFound funded (exec (paying alice 1002) (ReleaseEscrow 99 42) funded)
  /\ rejected NotFound funded
       (exec (paying admin 1002) (RefundEscrow 99 "none") funded).
Proof.
  split.
  - apply (settlement_of_missing_job sample_keccak256 ledger
             (paying alice 1002) 99 funded eq_refl).
  - apply (settlement_of_missing_job sample_keccak256 ledger
             (paying admin 1002) 99 funded eq_refl).
Defined.

Lemma releaseEscrow_authorization_witness :
  rejected Unauthorized funded
    (exec (paying mallory 1002) (ReleaseEscrow 7 42) funded)
  /\ snd (exec (paying admin 1002) (ReleaseEscrow 7 42) funded) = Success
  /\ snd (exec (paying alice (day_after + 1)) (ReleaseEscrow 8 42) twice_settled)
       <> Success.
Proof.
  split; [| split].
  - apply (releaseEscrow_authorization sample_keccak256 ledger
             (paying mallory 1002) 7 42 funded);
      [reflexivity | (vm_compute; discriminate) | (vm_compute; discriminate)].
  - apply (releaseEscrow_authorization sample_keccak256 ledger
             (paying admin 1002) 7 42 funded).
    + reflexivity.
    + right. reflexivity.
    + split; [vm_compute; discriminate |].
      split; [vm_compute; discriminate |].
      split; [vm_compute; discriminate | right; reflexivity].
  - intros Hok.
    destruct (releaseEscrow_authorization sample_keccak256 ledger
                (paying alice (day_after + 1)) 8 42 twice_settled)
      as [_ [_ Hiff]]; [vm_compute; reflexivity |].
    apply Hiff in Hok; [| left; vm_compute; reflexivity].
    destruct Hok as [Hcov _]. vm_compute in Hcov. apply Hcov. reflexivity.
Defined.

Lemma refundEscrow_after_deadline_witness :
  snd (exec (paying alice (1000 + HOURS_24 + 1)) (RefundEscrow 7 "timeout") funded)
    = Success
  /\ isRefunded
       (escrows (fst (exec (paying alice (1000 + HOURS_24 + 1))
                           (RefundEscrow 7 "timeout") funded)) 7) = true.
Proof.
  destruct (refundEscrow_after_deadline sample_keccak256 ledger
              (paying alice (1000 + HOURS_24 + 1)) 7 "timeout" funded)
    as [Hiff Hthen].
  - reflexivity.
  - reflexivity.
  - vm_compute. discriminate.
  - vm_compute. reflexivity.
  - assert (Hok : snd (exec (paying alice (1000 + HOURS_24 + 1))
                         (RefundEscrow 7 "timeout") funded) = Success).
    { apply Hiff. split; [vm_compute; discriminate |].
      split; [vm_compute; discriminate | right; reflexivity]. }
    split; [exact Hok | apply (Hthen Hok)].
Defined.

Lemma release_paths_agree_witness :
  exec (paying alice 2000) (ReleaseWithProof 7 [x01; x02] [5])
       funded_with_verifier =
  exec (paying alice 2000) (ReleaseEscrow 7 (sample_keccak256 [x01; x02]))
       funded_with_verifier.
Proof.
  apply (release_paths_agree sample_keccak256 ledger
           (paying alice 2000) 7 [x01; x02] [5] funded_with_verifier).
  - reflexivity.
  - left. reflexivity.
  - (vm_compute; discriminate).
  - reflexivity.
  - reflexivity.
Defined.

Lemma settlement_pays_the_amount_witness :
  (exec (paying alice 1002) (ReleaseEscrow 7 42) funded = (released, Success)
   /\ balance released = balance funded - 10)
  /\ (exec refund_inside (ReleaseWithProof 7 [x01] []) two_jobs =
        (twice_settled, Success)
      /\ balance (after_verifier sample_keccak256 ledger refund_inside
                    [x01] [] two_jobs) = balance two_jobs - 10
      /\ balance twice_settled =
           balance (after_verifier sample_keccak256 ledger refund_inside
                      [x01] [] two_jobs) - 10).
Proof.
  split.
  - split; [reflexivity |].
    destruct (settlement_pays_the_amount sample_keccak256 ledger
                (paying alice 1002) 7 funded released) as [Hrel _].
    destruct (Hrel 42 eq_refl) as [Hbal _].
    exact Hbal.
  - assert (Hout : transact sample_keccak256 ledger refund_inside
                     (ReleaseWithProof 7 [x01] []) two_jobs =
                   (twice_settled, Success)) by (vm_compute; reflexivity).
    split; [exact Hout |]. split; [vm_compute; reflexivity |].
    destruct (settlement_pays_the_amount sample_keccak256 ledger
                refund_inside 7 two_jobs twice_settled) as [_ [Hproof _]].
    destruct (Hproof [x01] [] Hout) as [Hbal _].
    rewrite Hbal. vm_compute. reflexivity.
Defined.

Lemma each_job_settles_once_witness :
  NoDup (settled_jobs released)
  /\ (In 7 (settled_jobs released) <-> settled (escrows released 7) = true).
Proof.
  destruct (each_job_settles_once sample_keccak256 ledger admin
              [(paying alice 1000, CreateEscrow 10 7 bob);
               (paying alice 1002, ReleaseEscrow 7 42)]) as [Hnd Hin].
  - repeat constructor; intros v proof inputs; reflexivity.
  - split; [exact Hnd | apply Hin].
Defined.

Lemma releaseWithProof_verification_gate_witness :
  fst (call_verify (paying mallory 2000) verifier [x01] []) = true
  /\ ~ rejected VerificationFailed funded_with_verifier
         (exec (paying mallory 2000) (ReleaseWithProof 7 [x01] [])
               funded_with_verifier).
Proof.
  split; [reflexivity |].
  intros Hrej.
  apply (releaseWithProof_verification_gate sample_keccak256 ledger
           (paying mallory 2000) 7 [x01] [] funded_with_verifier) in Hrej.
  - discriminate Hrej.
  - reflexivity.
  - (vm_compute; discriminate).
Defined.
